(** * Text-to-emotion analyzer: the logic of [app_text_emotion.py]

    The script is a Streamlit page around four pieces of logic: the
    label-to-emoji lookup, the choice of the model from the language
    selector, the ranking of the scores returned by the classification
    pipeline, and the CSV log ([save_prediction], the row counter and the
    clear button).  This file embeds them and proves the properties the
    specification states about them. *)

From Stdlib Require Import QArith Ascii String.
From stdpp Require Import gmap strings list sorting.

Open Scope N_scope.

(** ** Python strings

    A Python [str] is a sequence of Unicode code points. *)

Abbreviation char := N (only parsing).
Abbreviation str := (list N) (only parsing).

(** An ASCII literal of the script as a [str]. *)
Definition lit (s : string) : str :=
  map N_of_ascii (String.list_ascii_of_string s).

Definition str_eqb (a b : str) : bool := bool_decide (a = b).

Definition is_ascii (s : str) : Prop := Forall (fun c => c < 128) s.

(** [str.lower] and [str.upper] map every code point through the Unicode
    case tables; one code point can become several (U+00DF, U+0130, U+0149).
    The tables below are CPython's for U+0000..U+017F (Basic Latin, Latin-1
    Supplement, Latin Extended-A); a code point above U+017F is left as it
    is, which is coarser than CPython there.  No statement below depends
    on the case of a code point above U+017F. *)

Definition LOWER_TABLE : list (N * list N) := [
  (65, [97]); (66, [98]); (67, [99]); (68, [100]); (69, [101]); (70, [102]);
   (71, [103]); (72, [104]); (73, [105]); (74, [106]); (75, [107]);
   (76, [108]); (77, [109]); (78, [110]); (79, [111]); (80, [112]);
   (81, [113]); (82, [114]); (83, [115]); (84, [116]); (85, [117]);
   (86, [118]); (87, [119]); (88, [120]); (89, [121]); (90, [122]);
   (192, [224]); (193, [225]); (194, [226]); (195, [227]); (196, [228]);
   (197, [229]); (198, [230]); (199, [231]); (200, [232]); (201, [233]);
   (202, [234]); (203, [235]); (204, [236]); (205, [237]); (206, [238]);
   (207, [239]); (208, [240]); (209, [241]); (210, [242]); (211, [243]);
   (212, [244]); (213, [245]); (214, [246]); (216, [248]); (217, [249]);
   (218, [250]); (219, [251]); (220, [252]); (221, [253]); (222, [254]);
   (256, [257]); (258, [259]); (260, [261]); (262, [263]); (264, [265]);
   (266, [267]); (268, [269]); (270, [271]); (272, [273]); (274, [275]);
   (276, [277]); (278, [279]); (280, [281]); (282, [283]); (284, [285]);
   (286, [287]); (288, [289]); (290, [291]); (292, [293]); (294, [295]);
   (296, [297]); (298, [299]); (300, [301]); (302, [303]); (304, [105; 775]);
   (306, [307]); (308, [309]); (310, [311]); (313, [314]); (315, [316]);
   (317, [318]); (319, [320]); (321, [322]); (323, [324]); (325, [326]);
   (327, [328]); (330, [331]); (332, [333]); (334, [335]); (336, [337]);
   (338, [339]); (340, [341]); (342, [343]); (344, [345]); (346, [347]);
   (348, [349]); (350, [351]); (352, [353]); (354, [355]); (356, [357]);
   (358, [359]); (360, [361]); (362, [363]); (364, [365]); (366, [367]);
   (368, [369]); (370, [371]); (372, [373]); (374, [375]); (376, [255]);
   (377, [378]); (379, [380]); (381, [382])
].

Definition UPPER_TABLE : list (N * list N) := [
  (97, [65]); (98, [66]); (99, [67]); (100, [68]); (101, [69]); (102, [70]);
   (103, [71]); (104, [72]); (105, [73]); (106, [74]); (107, [75]);
   (108, [76]); (109, [77]); (110, [78]); (111, [79]); (112, [80]);
   (113, [81]); (114, [82]); (115, [83]); (116, [84]); (117, [85]);
   (118, [86]); (119, [87]); (120, [88]); (121, [89]); (122, [90]);
   (181, [924]); (223, [83; 83]); (224, [192]); (225, [193]); (226, [194]);
   (227, [195]); (228, [196]); (229, [197]); (230, [198]); (231, [199]);
   (232, [200]); (233, [201]); (234, [202]); (235, [203]); (236, [204]);
   (237, [205]); (238, [206]); (239, [207]); (240, [208]); (241, [209]);
   (242, [210]); (243, [211]); (244, [212]); (245, [213]); (246, [214]);
   (248, [216]); (249, [217]); (250, [218]); (251, [219]); (252, [220]);
   (253, [221]); (254, [222]); (255, [376]); (257, [256]); (259, [258]);
   (261, [260]); (263, [262]); (265, [264]); (267, [266]); (269, [268]);
   (271, [270]); (273, [272]); (275, [274]); (277, [276]); (279, [278]);
   (281, [280]); (283, [282]); (285, [284]); (287, [286]); (289, [288]);
   (291, [290]); (293, [292]); (295, [294]); (297, [296]); (299, [298]);
   (301, [300]); (303, [302]); (305, [73]); (307, [306]); (309, [308]);
   (311, [310]); (314, [313]); (316, [315]); (318, [317]); (320, [319]);
   (322, [321]); (324, [323]); (326, [325]); (328, [327]); (329, [700; 78]);
   (331, [330]); (333, [332]); (335, [334]); (337, [336]); (339, [338]);
   (341, [340]); (343, [342]); (345, [344]); (347, [346]); (349, [348]);
   (351, [350]); (353, [352]); (355, [354]); (357, [356]); (359, [358]);
   (361, [360]); (363, [362]); (365, [364]); (367, [366]); (369, [368]);
   (371, [370]); (373, [372]); (375, [374]); (378, [377]); (380, [379]);
   (382, [381]); (383, [83])
].

Fixpoint case_lookup (t : list (N * list N)) (c : N) : list N :=
  match t with
  | [] => [c]
  | (k, v) :: t' => if N.eqb k c then v else case_lookup t' c
  end.

Definition lower (s : str) : str := flat_map (case_lookup LOWER_TABLE) s.
Definition upper (s : str) : str := flat_map (case_lookup UPPER_TABLE) s.

(** [str.startswith]. *)
Fixpoint startswith (s p : str) : bool :=
  match p, s with
  | [], _ => true
  | _ :: _, [] => false
  | a :: p', b :: s' => N.eqb a b && startswith s' p'
  end.

(** The code points for which [str.isspace] holds (CPython's
    [_PyUnicode_IsWhitespace]); [str.strip()] removes them at both ends. *)
Definition WHITESPACE : list N :=
  [9; 10; 11; 12; 13; 28; 29; 30; 31; 32; 133; 160; 5760; 8192; 8193; 8194;
   8195; 8196; 8197; 8198; 8199; 8200; 8201; 8202; 8232; 8233; 8239; 8287;
   12288].

Definition isspace (c : char) : bool := existsb (N.eqb c) WHITESPACE.

Fixpoint lstrip (s : str) : str :=
  match s with
  | c :: s' => if isspace c then lstrip s' else s
  | [] => []
  end.

Definition rstrip (s : str) : str := rev (lstrip (rev s)).
Definition strip (s : str) : str := rstrip (lstrip s).

(** Truth value of a string: [not s] holds of the empty string only. *)
Definition py_not (s : str) : bool :=
  match s with [] => true | _ => false end.

(** ** Constants of the script *)

Definition EN_MODEL : str :=
  lit "bhadresh-savani/distilbert-base-uncased-emotion".
Definition MULTI_MODEL : str :=
  lit "cardiffnlp/twitter-xlm-roberta-base-emotion".

(** The emoji are given by their code points: U+1F604, U+1F622, U+1F621,
    U+1F922, U+1F628, U+1F632, U+1F610, U+2764 U+FE0F, U+1F929; the default
    is U+1F7E6. *)
Definition GRIN : str := [128516].
Definition CRY : str := [128546].
Definition RAGE : str := [128545].
Definition NAUSEA : str := [129314].
Definition FEARFUL : str := [128552].
Definition ASTONISHED : str := [128562].
Definition NEUTRAL_FACE : str := [128528].
Definition HEART : str := [10084; 65039].
Definition STAR_STRUCK : str := [129321].
Definition BLUE_SQUARE : str := [128998].

Definition EMOJI_MAP : gmap str str :=
  list_to_map [
    (lit "joy", GRIN);
    (lit "happy", GRIN);
    (lit "sadness", CRY);
    (lit "sad", CRY);
    (lit "anger", RAGE);
    (lit "anger/annoyance", RAGE);
    (lit "disgust", NAUSEA);
    (lit "fear", FEARFUL);
    (lit "surprise", ASTONISHED);
    (lit "neutral", NEUTRAL_FACE);
    (lit "love", HEART);
    (lit "enthusiasm", STAR_STRUCK)
  ].

(** [dict.get(k, d)]. *)
Definition dict_get (m : gmap str str) (k : str) (d : str) : str :=
  default d (m !! k).

Definition label_to_emoji (label : str) : str :=
  let l := lower label in
  dict_get EMOJI_MAP l BLUE_SQUARE.

(** Line 66: [EN_MODEL if lang.startswith("English") else MULTI_MODEL]. *)
Definition select_model (lang : str) : str :=
  if startswith lang (lit "English") then EN_MODEL else MULTI_MODEL.

Definition LANG_EN : str := lit "English (fast)".
Definition LANG_MULTI : str := lit "Hindi / Multilingual".

(** ** Scores

    A score is a Python [float], finite (the pipeline returns confidences
    between 0 and 1).  The embedding keeps the type abstract and names the
    operations the script applies to it: comparison (through the rational
    a finite float stands for, so that [<] is the order of the
    rationals), [repr] (which [json.dumps] and [DataFrame.to_csv] print),
    [float(s)] (which [json.loads] calls on a number token) and the number
    conversion of the CSV reader.  How a float is printed and parsed is
    left to the instance: the statements below say what they need of
    it. *)

Class PyFloat (F : Type) := {
  fval : F -> Q;
  float_repr : F -> str;
  float_of_str : str -> option F;
  csv_float : str -> option F
}.

(** [x < y] on floats. *)
Definition float_lt `{PyFloat F} (x y : F) : bool :=
  negb (Qle_bool (fval y) (fval x)).

(** One item of the pipeline's answer: [{'label': ..., 'score': ...}]. *)
Record pred (F : Type) := mk_pred { label : str; score : F }.
Arguments mk_pred {F} _ _.
Arguments label {F} _.
Arguments score {F} _.

(** ** The built-in [sorted]

    [sorted(xs, key=k, reverse=r)] is a stable sort that compares keys with
    [<] only.  With [reverse=True] CPython reverses the list, sorts it
    ascending and reverses the result, which keeps equal keys in their
    input order. *)

Section Sorted.
Context {A K : Type} (key : A -> K) (lt : K -> K -> bool).

Fixpoint insert_stable (x : A) (l : list A) : list A :=
  match l with
  | [] => [x]
  | y :: l' =>
      if lt (key y) (key x) then y :: insert_stable x l' else x :: l
  end.

Fixpoint sort_stable (l : list A) : list A :=
  match l with
  | [] => []
  | x :: l' => insert_stable x (sort_stable l')
  end.

Definition sorted (l : list A) (reverse : bool) : list A :=
  if reverse then rev (sort_stable (rev l)) else sort_stable l.
End Sorted.

(** Python exceptions the script can meet. *)
Inductive exn := IndexError | FileNotFoundError | EmptyDataError | ParserError.

Inductive result (A : Type) := Ok (a : A) | Raise (e : exn).
Arguments Ok {A} _.
Arguments Raise {A} _.

(** [l[i]] for [i >= 0]. *)
Definition getitem {A} (l : list A) (i : nat) : result A :=
  match l !! i with Some x => Ok x | None => Raise IndexError end.

(** [l[:n]]. *)
Definition slice_to {A} (n : nat) (l : list A) : list A := take n l.

(** Lines 108-110 of the script. *)
Definition rank `{PyFloat F} (preds : list (pred F)) : list (pred F) :=
  sorted score float_lt preds true.

Definition score_le `{PyFloat F} (a b : pred F) : Prop :=
  (fval (score a) <= fval (score b))%Q.
Definition score_ge `{PyFloat F} (a b : pred F) : Prop :=
  (fval (score b) <= fval (score a))%Q.

(** The predictions whose score has the value [q], in their order. *)
Definition with_score `{PyFloat F} (q : Q) (l : list (pred F)) : list (pred F) :=
  List.filter (fun p => Qeq_bool (fval (score p)) q) l.

(** ** Timestamps

    [datetime.datetime.now().isoformat()] of a naive datetime:
    [YYYY-MM-DDTHH:MM:SS.ffffff], without the fraction when the microsecond
    is zero. *)

Record datetime := mk_datetime {
  year : N; month : N; day : N;
  hour : N; minute : N; second : N; microsecond : N
}.

(** [n] written with [w] decimal digits, zero padded. *)
Fixpoint zpad (w : nat) (n : N) : str :=
  match w with
  | O => []
  | S w' => zpad w' (n / 10) ++ [48 + n mod 10]
  end.

Definition isoformat (d : datetime) : str :=
  zpad 4 (year d) ++ lit "-" ++ zpad 2 (month d) ++ lit "-" ++ zpad 2 (day d)
  ++ lit "T" ++ zpad 2 (hour d) ++ lit ":" ++ zpad 2 (minute d) ++ lit ":"
  ++ zpad 2 (second d)
  ++ (if N.eqb (microsecond d) 0 then []
      else lit "." ++ zpad 6 (microsecond d)).

(** ** [json.dumps(obj, ensure_ascii=False)] *)

#[warnings="-register-all"]
Inductive json (F : Type) :=
| JNull
| JBool (b : bool)
| JInt (z : Z)
| JFloat (f : F)
| JStr (s : str)
| JList (l : list (json F))
| JDict (d : list (str * json F)).
Arguments JNull {F}.
Arguments JBool {F} _.
Arguments JInt {F} _.
Arguments JFloat {F} _.
Arguments JStr {F} _.
Arguments JList {F} _.
Arguments JDict {F} _.

Definition hex_digit (n : N) : N :=
  if n <? 10 then 48 + n else 87 + n.

(** The replacement of one character inside a JSON string: [ESCAPE_DCT] of
    [json.encoder], the [\uXXXX] form for the other control characters. *)
Definition json_escape_char (c : char) : str :=
  if N.eqb c 34 then [92; 34]
  else if N.eqb c 92 then [92; 92]
  else if N.eqb c 10 then [92; 110]
  else if N.eqb c 13 then [92; 114]
  else if N.eqb c 9 then [92; 116]
  else if N.eqb c 8 then [92; 98]
  else if N.eqb c 12 then [92; 102]
  else if c <? 32 then [92; 117; 48; 48; hex_digit (c / 16); hex_digit (c mod 16)]
  else [c].

Definition json_string (s : str) : str :=
  [34] ++ flat_map json_escape_char s ++ [34].

(** [sep.join(parts)]. *)
Fixpoint join (sep : str) (parts : list str) : str :=
  match parts with
  | [] => []
  | [p] => p
  | p :: ps => p ++ sep ++ join sep ps
  end.

Definition dec_of_Z (z : Z) : str := lit (pretty.pretty z).

Fixpoint json_dumps `{PyFloat F} (v : json F) : str :=
  match v with
  | JNull => lit "null"
  | JBool true => lit "true"
  | JBool false => lit "false"
  | JInt z => dec_of_Z z
  | JFloat f => float_repr f
  | JStr s => json_string s
  | JList l => [91] ++ join (lit ", ") (map json_dumps l) ++ [93]
  | JDict d =>
      [123]
      ++ join (lit ", ")
           (map (fun kv => json_string (fst kv) ++ lit ": " ++ json_dumps (snd kv)) d)
      ++ [125]
  end.

(** The Python value of one prediction, [{'label': l, 'score': s}]. *)
Definition pred_obj {F} (p : pred F) : json F :=
  JDict [(lit "label", JStr (label p)); (lit "score", JFloat (score p))].

Definition preds_obj {F} (ps : list (pred F)) : json F :=
  JList (map pred_obj ps).

(** ** [csv.writer] as pandas configures it

    [QUOTE_MINIMAL], the comma as delimiter, the double quote as quote
    character (doubled inside a field), no escape character, and the line
    terminator [os.linesep], here a line feed.  A field is
    quoted when it holds the delimiter, the quote character or a character
    of the line terminator; a carriage return alone does not quote a
    field, as in CPython 3.11 (later versions of the csv module quote it
    whatever the line terminator). *)

Definition COMMA : char := 44.
Definition QUOTE : char := 34.
Definition LF : char := 10.
Definition CR : char := 13.

Definition csv_special (c : char) : bool :=
  N.eqb c COMMA || N.eqb c QUOTE || N.eqb c LF.

Definition csv_double (c : char) : str :=
  if N.eqb c QUOTE then [QUOTE; QUOTE] else [c].

Definition csv_field (s : str) : str :=
  if existsb csv_special s
  then [QUOTE] ++ flat_map csv_double s ++ [QUOTE]
  else s.

(** A row of one empty field is written as a pair of quotes. *)
Definition csv_writerow (fields : list str) : str :=
  match fields with
  | [[]] => [QUOTE; QUOTE; LF]
  | _ => join [COMMA] (map csv_field fields) ++ [LF]
  end.

(** ** Data frames *)

Inductive cell (F : Type) :=
| NaN
| Num (f : F)
| Bool (b : bool)
| Text (s : str).
Arguments NaN {F}.
Arguments Num {F} _.
Arguments Bool {F} _.
Arguments Text {F} _.

Record DataFrame (F : Type) := mk_df {
  columns : list str;
  rows : list (list (cell F))
}.
Arguments mk_df {F} _ _.
Arguments columns {F} _.
Arguments rows {F} _.

(** What [to_csv] prints for a value: a string as it is, a float by its
    [repr], a missing value as the empty [na_rep]. *)
Definition cell_text `{PyFloat F} (c : cell F) : str :=
  match c with
  | NaN => []
  | Num f => float_repr f
  | Bool true => lit "True"
  | Bool false => lit "False"
  | Text s => s
  end.

(** [df.to_csv(..., header=h, index=False)] as text. *)
Definition to_csv_text `{PyFloat F} (df : DataFrame F) (header : bool) : str :=
  (if header then csv_writerow (columns df) else [])
  ++ concat (map (fun r => csv_writerow (map cell_text r)) (rows df)).

(** ** [pd.read_csv]: the tokenizer

    The C tokenizer of pandas under the defaults of [read_csv]: the comma
    as delimiter, the double quote as quote character (doubled inside a
    field), no escape or comment character, blank lines skipped, and a line
    feed, a carriage return or both ending a line.  The states and transitions are those of [tokenize_bytes]. *)

Inductive tok_state :=
| START_RECORD
| START_FIELD
| IN_FIELD
| IN_QUOTED_FIELD
| QUOTE_IN_QUOTED_FIELD
| EAT_CRNL
| EAT_CRNL_NOP
| WHITESPACE_LINE.

Record parser := mk_parser {
  state : tok_state;
  word : str;                 (* characters of the field being read *)
  fields : list str;          (* fields of the line being read *)
  lines : list (list str);    (* finished lines *)
  blanks : str;               (* leading blanks of a line that may be skipped *)
  failed : bool               (* a line had too many fields *)
}.

Definition parser_init : parser :=
  mk_parser START_RECORD [] [] [] [] false.

Definition set_state (s : tok_state) (p : parser) : parser :=
  mk_parser s (word p) (fields p) (lines p) (blanks p) (failed p).

Definition push_char (c : char) (p : parser) : parser :=
  mk_parser (state p) (word p ++ [c]) (fields p) (lines p) (blanks p) (failed p).

Definition end_field (p : parser) : parser :=
  mk_parser (state p) [] (fields p ++ [word p]) (lines p) (blanks p) (failed p).

(** [end_line]: from the third line on, a line with more fields than the
    line before it is an error; from the second line on, a shorter line is
    completed with empty fields. *)
Definition end_line (p : parser) : parser :=
  let n := length (lines p) in
  let ex := match last (lines p) with Some l => length l | None => O end in
  let k := length (fields p) in
  if (2 <=? n)%nat && (ex <? k)%nat then
    mk_parser START_RECORD [] [] (lines p) [] true
  else
    let padded :=
      if (1 <=? n)%nat then fields p ++ replicate (ex - k) [] else fields p in
    mk_parser START_RECORD [] [] (lines p ++ [padded]) [] (failed p).

Definition is_blank (c : char) : bool := N.eqb c 32 || N.eqb c 9.

Definition on_in_field (p : parser) (c : char) : parser :=
  if N.eqb c LF then end_line (end_field p)
  else if N.eqb c CR then set_state EAT_CRNL (end_field p)
  else if N.eqb c COMMA then set_state START_FIELD (end_field p)
  else push_char c p.

Definition on_start_field (p : parser) (c : char) : parser :=
  if N.eqb c LF then end_line (end_field p)
  else if N.eqb c CR then set_state EAT_CRNL (end_field p)
  else if N.eqb c QUOTE then set_state IN_QUOTED_FIELD p
  else if N.eqb c COMMA then set_state START_FIELD (end_field p)
  else set_state IN_FIELD (push_char c p).

Definition on_start_record (p : parser) (c : char) : parser :=
  if N.eqb c LF then set_state START_RECORD p
  else if N.eqb c CR then set_state EAT_CRNL_NOP p
  else if is_blank c then
    mk_parser WHITESPACE_LINE (word p) (fields p) (lines p) [c] (failed p)
  else on_start_field p c.

Definition tokenize_char (p : parser) (c : char) : parser :=
  match state p with
  | START_RECORD => on_start_record p c
  | START_FIELD => on_start_field p c
  | IN_FIELD => on_in_field p c
  | IN_QUOTED_FIELD =>
      if N.eqb c QUOTE then set_state QUOTE_IN_QUOTED_FIELD p
      else push_char c p
  | QUOTE_IN_QUOTED_FIELD =>
      if N.eqb c QUOTE then set_state IN_QUOTED_FIELD (push_char c p)
      else if N.eqb c COMMA then set_state START_FIELD (end_field p)
      else if N.eqb c LF then end_line (end_field p)
      else if N.eqb c CR then set_state EAT_CRNL (end_field p)
      else set_state IN_FIELD (push_char c p)
  | EAT_CRNL =>
      if N.eqb c LF then end_line p
      else if N.eqb c COMMA then set_state START_FIELD (end_field (end_line p))
      else on_start_record (end_line p) c
  | EAT_CRNL_NOP =>
      if N.eqb c LF || N.eqb c COMMA then set_state START_RECORD p
      else on_start_record (set_state START_RECORD p) c
  | WHITESPACE_LINE =>
      if N.eqb c LF then
        mk_parser START_RECORD (word p) (fields p) (lines p) [] (failed p)
      else if N.eqb c CR then
        mk_parser EAT_CRNL_NOP (word p) (fields p) (lines p) [] (failed p)
      else if is_blank c then
        mk_parser WHITESPACE_LINE (word p) (fields p) (lines p)
          (blanks p ++ [c]) (failed p)
      else
        (* the line is not blank: it is read again from its start *)
        on_in_field
          (mk_parser IN_FIELD (blanks p) (fields p) (lines p) [] (failed p)) c
  end.

Definition tokenize_bytes (p : parser) (data : str) : parser :=
  fold_left tokenize_char data p.

Inductive tok_result :=
| Tokens (ls : list (list str))
| TokenError.

(** [parser_handle_eof]. *)
Definition handle_eof (p : parser) : parser :=
  match state p with
  | START_RECORD | WHITESPACE_LINE | EAT_CRNL_NOP => p
  | IN_QUOTED_FIELD =>
      mk_parser (state p) (word p) (fields p) (lines p) (blanks p) true
  | IN_FIELD | START_FIELD | QUOTE_IN_QUOTED_FIELD => end_line (end_field p)
  | EAT_CRNL => end_line p
  end.

Definition tokenize_all (data : str) : tok_result :=
  let p := handle_eof (tokenize_bytes parser_init data) in
  if failed p then TokenError else Tokens (lines p).

(** ** [pd.read_csv]: from tokens to a frame

    The first line names the columns.  When the first data line is longer
    than the header, its leading fields are the index and leave the
    cells.  A column in which every field is missing or a number becomes
    numeric, one of truth values and missing fields becomes boolean, and
    any other column holds text; the default missing-value tokens
    ([STR_NA_VALUES]) become [NaN] in every column.  The columns keep the
    names of the header (the reader renames repeated names; the log has
    none). *)

Definition NA_VALUES : list str :=
  map lit [""; "#N/A"; "#N/A N/A"; "#NA"; "-1.#IND"; "-1.#QNAN"; "-NaN";
           "-nan"; "1.#IND"; "1.#QNAN"; "<NA>"; "N/A"; "NA"; "NULL"; "NaN";
           "None"; "n/a"; "nan"; "null"]%string.

Definition TRUE_VALUES : list str := map lit ["True"; "TRUE"; "true"]%string.
Definition FALSE_VALUES : list str :=
  map lit ["False"; "FALSE"; "false"]%string.

Definition str_in (s : str) (l : list str) : bool := existsb (str_eqb s) l.

Definition is_na (s : str) : bool := str_in s NA_VALUES.
Definition is_bool (s : str) : bool :=
  str_in s TRUE_VALUES || str_in s FALSE_VALUES.

Definition is_digit (c : char) : bool := (48 <=? c) && (c <=? 57).
Definition is_letter (c : char) : bool :=
  ((65 <=? c) && (c <=? 90)) || ((97 <=? c) && (c <=? 122)).

(** The number converters of the reader accept digits, a sign, a decimal
    point, an exponent letter, blanks around the number, and the words
    [inf], [infinity] and [nan]; a field with any other character is no
    number. *)
Definition numeric_char (c : char) : bool :=
  is_digit c || is_letter c || is_blank c
  || N.eqb c 43 || N.eqb c 45 || N.eqb c 46.

Definition csv_number `{PyFloat F} (s : str) : option F :=
  if forallb numeric_char s then csv_float s else None.

Inductive col_kind := KNumeric | KBool | KObject.

Definition infer_kind `{PyFloat F} (col : list str) : col_kind :=
  if forallb (fun s => is_na s || bool_decide (is_Some (csv_number s))) col
  then KNumeric
  else if forallb (fun s => is_na s || is_bool s) col then KBool
  else KObject.

Definition convert `{PyFloat F} (k : col_kind) (s : str) : cell F :=
  if is_na s then NaN
  else match k with
       | KNumeric => match csv_number s with Some f => Num f | None => NaN end
       | KBool => Bool (str_in s TRUE_VALUES)
       | KObject => Text s
       end.

Definition column (j : nat) (body : list (list str)) : list str :=
  map (fun r => default [] (r !! j)) body.

Definition frame_of_tokens `{PyFloat F} (ls : list (list str))
  : option (DataFrame F) :=
  match ls with
  | [] => None                                  (* EmptyDataError *)
  | header :: body =>
      let extra :=
        match body with
        | r :: _ => (length r - length header)%nat
        | [] => O
        end in
      let body' := map (drop extra) body in
      Some (mk_df header
              (map (imap (fun j s => convert (infer_kind (column j body')) s))
                   body'))
  end.

Definition read_csv_text `{PyFloat F} (data : str) : option (DataFrame F) :=
  match tokenize_all data with
  | TokenError => None
  | Tokens ls => frame_of_tokens ls
  end.

(** ** [json.loads] *)

Definition is_json_ws (c : char) : bool :=
  N.eqb c 32 || N.eqb c 9 || N.eqb c 10 || N.eqb c 13.

Fixpoint skip_ws (s : str) : str :=
  match s with
  | c :: t => if is_json_ws c then skip_ws t else s
  | [] => []
  end.

Fixpoint span_digits (s : str) : str * str :=
  match s with
  | c :: t =>
      if is_digit c then let '(d, r) := span_digits t in (c :: d, r)
      else ([], s)
  | [] => ([], [])
  end.

Definition hex_val (c : char) : option N :=
  if is_digit c then Some (c - 48)
  else if (97 <=? c) && (c <=? 102) then Some (c - 87)
  else if (65 <=? c) && (c <=? 70) then Some (c - 55)
  else None.

Definition decode_uXXXX (a b c d : char) : option N :=
  match hex_val a, hex_val b, hex_val c, hex_val d with
  | Some x, Some y, Some z, Some w => Some (((x * 16 + y) * 16 + z) * 16 + w)
  | _, _, _, _ => None
  end.

(** The character a backslash escape stands for ([BACKSLASH] of
    [json.decoder]). *)
Definition unescape (e : char) : option char :=
  if N.eqb e 34 then Some 34
  else if N.eqb e 92 then Some 92
  else if N.eqb e 47 then Some 47
  else if N.eqb e 98 then Some 8
  else if N.eqb e 102 then Some 12
  else if N.eqb e 110 then Some 10
  else if N.eqb e 114 then Some 13
  else if N.eqb e 116 then Some 9
  else None.

(** [scanstring] in strict mode, from the character after the opening
    quote: the decoded string and what follows the closing quote. *)
Fixpoint scanstring (s : str) (acc : str) : option (str * str) :=
  match s with
  | [] => None
  | c :: t =>
      if N.eqb c 34 then Some (acc, t)
      else if N.eqb c 92 then
        match t with
        | [] => None
        | e :: t1 =>
            if N.eqb e 117 then
              match t1 with
              | h1 :: h2 :: h3 :: h4 :: t2 =>
                  match decode_uXXXX h1 h2 h3 h4 with
                  | None => None
                  | Some uni =>
                      let single := scanstring t2 (acc ++ [uni]) in
                      if (55296 <=? uni) && (uni <=? 56319) then
                        match t2 with
                        | b :: u :: g1 :: g2 :: g3 :: g4 :: t3 =>
                            if N.eqb b 92 && N.eqb u 117 then
                              match decode_uXXXX g1 g2 g3 g4 with
                              | None => None
                              | Some uni2 =>
                                  if (56320 <=? uni2) && (uni2 <=? 57343) then
                                    scanstring t3
                                      (acc ++ [65536 + ((uni - 55296) * 1024
                                                        + (uni2 - 56320))])
                                  else single
                              end
                            else single
                        | _ => single
                        end
                      else single
                  end
              | _ => None
              end
            else
              match unescape e with
              | Some x => scanstring t1 (acc ++ [x])
              | None => None
              end
        end
      else if c <? 32 then None
      else scanstring t (acc ++ [c])
  end.

(** [NUMBER_RE]: an integer part, then an optional fraction and an optional
    exponent, each kept only when it has digits. *)
Definition scan_int (s : str) : option (str * str) :=
  let '(sign, s1) :=
    match s with
    | c :: t => if N.eqb c 45 then ([c], t) else ([], s)
    | [] => ([], s)
    end in
  match s1 with
  | c :: t =>
      if N.eqb c 48 then Some (sign ++ [c], t)
      else if is_digit c then
        let '(d, r) := span_digits t in Some (sign ++ c :: d, r)
      else None
  | [] => None
  end.

Definition scan_frac (s : str) : str * str :=
  match s with
  | c :: t =>
      if N.eqb c 46 then
        match span_digits t with
        | ([], _) => ([], s)
        | (d, r) => (c :: d, r)
        end
      else ([], s)
  | [] => ([], s)
  end.

Definition scan_exp (s : str) : str * str :=
  match s with
  | c :: t =>
      if N.eqb c 101 || N.eqb c 69 then
        let '(sign, t1) :=
          match t with
          | g :: t' => if N.eqb g 43 || N.eqb g 45 then ([g], t') else ([], t)
          | [] => ([], t)
          end in
        match span_digits t1 with
        | ([], _) => ([], s)
        | (d, r) => (c :: sign ++ d, r)
        end
      else ([], s)
  | [] => ([], s)
  end.

Definition match_number (s : str) : option (str * str * str * str) :=
  match scan_int s with
  | None => None
  | Some (i, r1) =>
      let '(f, r2) := scan_frac r1 in
      let '(e, r3) := scan_exp r2 in
      Some (i, f, e, r3)
  end.

(** [int(s)] for a string of the shape [-?digits]. *)
Definition int_of_str (s : str) : Z :=
  let value := fold_left (fun a c => a * 10 + (c - 48)) in
  match s with
  | c :: t => if N.eqb c 45 then Z.opp (Z.of_N (value t 0))
              else Z.of_N (value s 0)
  | [] => 0%Z
  end.

(** [dict(pairs)]: a repeated key keeps its place and takes the last
    value. *)
Fixpoint dict_set {V} (d : list (str * V)) (k : str) (v : V) : list (str * V) :=
  match d with
  | [] => [(k, v)]
  | (k', v') :: d' =>
      if str_eqb k k' then (k, v) :: d' else (k', v') :: dict_set d' k v
  end.

Section Decoder.
Context `{PyFloat F}.
Variable scan : str -> option (json F * str).

(** The loop of [JSONArray], entered at the first value. *)
Fixpoint array_loop (k : nat) (s : str) (acc : list (json F))
  : option (json F * str) :=
  match k with
  | O => None
  | S k' =>
      match scan s with
      | None => None
      | Some (v, r) =>
          match skip_ws r with
          | c :: r' =>
              if N.eqb c 93 then Some (JList (acc ++ [v]), r')
              else if N.eqb c 44 then array_loop k' (skip_ws r') (acc ++ [v])
              else None
          | [] => None
          end
      end
  end.

Definition JSONArray (s : str) : option (json F * str) :=
  match skip_ws s with
  | c :: r =>
      if N.eqb c 93 then Some (JList [], r)
      else array_loop (length s) (skip_ws s) []
  | [] => None
  end.

(** The loop of [JSONObject], entered after the opening quote of a key. *)
Fixpoint object_loop (k : nat) (s : str) (acc : list (str * json F))
  : option (json F * str) :=
  match k with
  | O => None
  | S k' =>
      match scanstring s [] with
      | None => None
      | Some (key, r) =>
          match skip_ws r with
          | c :: r1 =>
              if N.eqb c 58 then
                match scan (skip_ws r1) with
                | None => None
                | Some (v, r2) =>
                    match skip_ws r2 with
                    | c2 :: r3 =>
                        if N.eqb c2 125 then Some (JDict (dict_set acc key v), r3)
                        else if N.eqb c2 44 then
                          match skip_ws r3 with
                          | q :: r4 =>
                              if N.eqb q 34
                              then object_loop k' r4 (dict_set acc key v)
                              else None
                          | [] => None
                          end
                        else None
                    | [] => None
                    end
                end
              else None
          | [] => None
          end
      end
  end.

Definition JSONObject (s : str) : option (json F * str) :=
  match skip_ws s with
  | c :: r =>
      if N.eqb c 125 then Some (JDict [], r)
      else if N.eqb c 34 then object_loop (length s) r []
      else None
  | [] => None
  end.
End Decoder.

(** [scan_once]; [fuel] bounds the nesting depth. *)
Fixpoint scan_once `{PyFloat F} (fuel : nat) (s : str) : option (json F * str) :=
  match fuel with
  | O => None
  | S n =>
      match s with
      | [] => None
      | c :: t =>
          if N.eqb c 34 then
            match scanstring t [] with
            | Some (x, r) => Some (JStr x, r)
            | None => None
            end
          else if N.eqb c 123 then JSONObject (scan_once n) t
          else if N.eqb c 91 then JSONArray (scan_once n) t
          else if startswith s (lit "null") then Some (JNull, drop 4 s)
          else if startswith s (lit "true") then Some (JBool true, drop 4 s)
          else if startswith s (lit "false") then Some (JBool false, drop 5 s)
          else
            match match_number s with
            | Some (i, [], [], r) => Some (JInt (int_of_str i), r)
            | Some (i, f, e, r) =>
                match float_of_str (i ++ f ++ e) with
                | Some x => Some (JFloat x, r)
                | None => None
                end
            | None =>
                if startswith s (lit "NaN") then
                  match float_of_str (lit "nan") with
                  | Some x => Some (JFloat x, drop 3 s)
                  | None => None
                  end
                else if startswith s (lit "Infinity") then
                  match float_of_str (lit "inf") with
                  | Some x => Some (JFloat x, drop 8 s)
                  | None => None
                  end
                else if startswith s (lit "-Infinity") then
                  match float_of_str (lit "-inf") with
                  | Some x => Some (JFloat x, drop 9 s)
                  | None => None
                  end
                else None
            end
      end
  end.

Definition json_loads `{PyFloat F} (s : str) : option (json F) :=
  let s0 := skip_ws s in
  match scan_once (length s) s0 with
  | Some (v, r) => match skip_ws r with [] => Some v | _ => None end
  | None => None
  end.

(** ** The floats with at most two decimals

    A concrete reading of the interface, enough to run the scenarios: the
    float nearest to [k/100] is kept as [k]; its [repr] is the shortest
    decimal, as Python prints it. *)

Definition cents := N.

Definition cents_repr (k : cents) : str :=
  let a := k / 100 in
  let b := k mod 100 in
  lit (pretty.pretty a) ++ [46]
  ++ (if N.eqb (b mod 10) 0 then [48 + b / 10] else [48 + b / 10; 48 + b mod 10]).

Definition digits_value (d : str) : N :=
  fold_left (fun a c => a * 10 + (c - 48)) d 0.

Definition cents_of_str (s : str) : option cents :=
  match span_digits s with
  | ([], _) => None
  | (i, c :: r) =>
      if N.eqb c 46 then
        match span_digits r with
        | ([d1], []) => Some (digits_value i * 100 + (d1 - 48) * 10)
        | ([d1; d2], []) => Some (digits_value i * 100 + digits_value [d1; d2])
        | _ => None
        end
      else None
  | (_, []) => None
  end.

#[export] Instance cents_float : PyFloat cents := {
  fval := fun k => (Z.of_N k # 100)%Q;
  float_repr := cents_repr;
  float_of_str := cents_of_str;
  csv_float := cents_of_str
}.

(** ** The world of the script

    The files of the working directory, and what the page has shown and
    asked of the pipeline so far.  An event stands for the calls of the
    lines named beside it and carries the values they show; how Streamlit
    lays them out and formats the numbers is not modelled. *)

Definition LOG_CSV : string := "predictions_log.csv".

Inductive event (F : Type) :=
| EvLoadPipeline (model : str)                    (* line 70 *)
| EvInference (model text : str)                  (* line 103 *)
| EvWarning (msg : str)
| EvSuccess (msg : str)
| EvInfo (msg : str)
| EvWrite (msg : str)
| EvPrediction (emoji lbl : str) (sc : F)         (* lines 114-118 *)
| EvRanked (i : nat) (lbl emoji : str) (sc : F)   (* line 124 *)
| EvTable (body : list (pred F))                  (* line 131 *)
| EvChart (body : list (pred F))                  (* line 135 *)
| EvTotal (n : nat)                               (* line 146 *)
| EvDownload (data : str).                        (* lines 147-152 *)
Arguments EvLoadPipeline {F} _.
Arguments EvInference {F} _ _.
Arguments EvWarning {F} _.
Arguments EvSuccess {F} _.
Arguments EvInfo {F} _.
Arguments EvWrite {F} _.
Arguments EvPrediction {F} _ _ _.
Arguments EvRanked {F} _ _ _ _.
Arguments EvTable {F} _.
Arguments EvChart {F} _.
Arguments EvTotal {F} _.
Arguments EvDownload {F} _.

Record world (F : Type) := mk_world {
  fs : gmap string str;
  page : list (event F)
}.
Arguments mk_world {F} _ _.
Arguments fs {F} _.
Arguments page {F} _.

(** Computations of the script: they change the world and return a value
    or raise. *)
Definition M (F A : Type) : Type := world F -> result A * world F.

#[export] Instance M_ret {F} : MRet (M F) := fun A a w => (Ok a, w).
#[export] Instance M_bind {F} : MBind (M F) := fun A B f m w =>
  match m w with
  | (Ok a, w') => f a w'
  | (Raise e, w') => (Raise e, w')
  end.

Definition raise {F A} (e : exn) : M F A := fun w => (Raise e, w).

Definition lift {F A} (r : result A) : M F A := fun w => (r, w).

(** [try: body except Exception: handler]. *)
Definition try_except {F A} (body : M F A) (handler : exn -> M F A) : M F A :=
  fun w =>
    match body w with
    | (Ok a, w') => (Ok a, w')
    | (Raise e, w') => handler e w'
    end.

Definition emit {F} (e : event F) : M F unit :=
  fun w => (Ok tt, mk_world (fs w) (page w ++ [e])).

Fixpoint for_each {F A} (l : list A) (body : A -> M F unit) : M F unit :=
  match l with
  | [] => mret tt
  | x :: l' => body x ;; for_each l' body
  end.

(** [enumerate(l, start=k)]. *)
Fixpoint enumerate {A} (k : nat) (l : list A) : list (nat * A) :=
  match l with
  | [] => []
  | x :: l' => (k, x) :: enumerate (S k) l'
  end.

(** [os.path.exists], [os.remove], reading a file. *)
Definition path_exists {F} (p : string) : M F bool :=
  fun w => (Ok (bool_decide (is_Some (fs w !! p))), w).

Definition os_remove {F} (p : string) : M F unit :=
  fun w =>
    match fs w !! p with
    | Some _ => (Ok tt, mk_world (delete p (fs w)) (page w))
    | None => (Raise FileNotFoundError, w)
    end.

Definition read_file {F} (p : string) : M F str :=
  fun w =>
    match fs w !! p with
    | Some data => (Ok data, w)
    | None => (Raise FileNotFoundError, w)
    end.

Inductive file_mode := mode_w | mode_a.

(** [df.to_csv(path, mode=m, header=h, index=False, encoding="utf-8")].
    File contents are kept as text: UTF-8 is one-to-one and leaves the
    ASCII delimiters alone. *)
Definition to_csv `{PyFloat F} (df : DataFrame F) (p : string)
    (m : file_mode) (header : bool) : M F unit :=
  fun w =>
    let text := to_csv_text df header in
    let data :=
      match m with
      | mode_w => text
      | mode_a => default [] (fs w !! p) ++ text
      end in
    (Ok tt, mk_world (<[p := data]> (fs w)) (page w)).

(** [pd.read_csv(path)]. *)
Definition read_csv `{PyFloat F} (p : string) : M F (DataFrame F) :=
  fun w =>
    match fs w !! p with
    | None => (Raise FileNotFoundError, w)
    | Some data =>
        match tokenize_all data with
        | TokenError => (Raise ParserError, w)
        | Tokens ls =>
            match frame_of_tokens ls with
            | Some df => (Ok df, w)
            | None => (Raise EmptyDataError, w)
            end
        end
    end.

(** [pd.DataFrame(records)]: the columns are the keys of the records. *)
Definition DataFrame_of_records {F} (records : list (list (str * cell F)))
  : DataFrame F :=
  mk_df (match records with r :: _ => map fst r | [] => [] end)
        (map (map snd) records).

(** Lines 79-94.  [now] is the reading of the clock. *)
Definition save_prediction `{PyFloat F} (now : datetime)
    (text lang top_label : str) (top_score : F) (all_scores : list (pred F))
  : M F unit :=
  let row := [
    (lit "timestamp", Text (isoformat now));
    (lit "text", Text text);
    (lit "language", Text lang);
    (lit "top_label", Text top_label);
    (lit "top_score", Num top_score);
    (lit "all_scores", Text (json_dumps (preds_obj all_scores)))
  ] in
  found ← path_exists LOG_CSV;
  if negb found then
    let df := DataFrame_of_records [row] in
    to_csv df LOG_CSV mode_w true
  else
    let df := DataFrame_of_records [row] in
    to_csv df LOG_CSV mode_a false.

(** ** One run of the script

    Streamlit runs the script from top to bottom on every interaction.  The
    widgets return the language choice, the text and, for each button,
    whether it was the one pressed.  [pipeline model text] stands for the
    answer of the cached classification pipeline: a list, with one entry
    per input, of lists of predictions.

    The loading of the model (line 70) and the call of the pipeline
    (line 103) are taken to return: what they may raise, and what they
    write to the model cache of the machine, lies outside this model,
    whose file system is the working directory of the script.  The
    progress bar of line 118 is not among the events of the page. *)

Record inputs := mk_inputs {
  lang : str;
  text : str;
  predict_clicked : bool;
  clear_clicked : bool
}.

Definition MSG_EMPTY : str := lit "Please enter a sentence to analyze.".
Definition MSG_SAVED : str := lit "Saved to log " ++ [9989].
Definition MSG_CLEARED : str := lit "Log cleared.".
Definition MSG_NO_FILE : str := lit "No log file found.".
Definition MSG_NONE_YET : str := lit "No predictions saved yet.".
Definition MSG_UNREADABLE : str := lit "Could not load CSV log:".

Section Script.
Context `{PyFloat F}.
Variable pipeline : str -> str -> list (list (pred F)).
Variable now : datetime.

(** Lines 98-139. *)
Definition predict_action (inp : inputs) (model_name : str) : M F unit :=
  if py_not (strip (text inp)) then
    emit (EvWarning MSG_EMPTY)
  else
    emit (EvInference model_name (text inp)) ;;
    let preds_all := pipeline model_name (text inp) in
    preds ← lift (getitem preds_all 0);
    let preds_sorted := rank preds in
    let top3 := slice_to 3 preds_sorted in
    top ← lift (getitem top3 0);
    let emoji := label_to_emoji (label top) in
    emit (EvPrediction emoji (label top) (score top)) ;;
    for_each (enumerate 1 top3)
      (fun id => emit (EvRanked (fst id) (label (snd id))
                         (label_to_emoji (label (snd id))) (score (snd id)))) ;;
    emit (EvTable preds_sorted) ;;
    emit (EvChart preds_sorted) ;;
    save_prediction now (text inp) (lang inp) (label top) (score top)
      preds_sorted ;;
    emit (EvSuccess MSG_SAVED).

(** Lines 143-156. *)
Definition show_log : M F unit :=
  found ← path_exists LOG_CSV;
  if (found : bool) then
    try_except
      (df_log ← read_csv LOG_CSV;
       emit (EvTotal (length (rows df_log))) ;;
       data ← read_file LOG_CSV;
       emit (EvDownload data))
      (fun e => emit (EvWrite MSG_UNREADABLE))
  else emit (EvWrite MSG_NONE_YET).

(** Lines 159-164. *)
Definition clear_action : M F unit :=
  found ← path_exists LOG_CSV;
  if (found : bool) then
    os_remove LOG_CSV ;;
    emit (EvSuccess MSG_CLEARED)
  else emit (EvInfo MSG_NO_FILE).

Definition script (inp : inputs) : M F unit :=
  let model_name := select_model (lang inp) in
  emit (EvLoadPipeline model_name) ;;
  (if predict_clicked inp then predict_action inp model_name else mret tt) ;;
  show_log ;;
  (if clear_clicked inp then clear_action else mret tt).
End Script.

(** ** Vocabulary of the statements *)

(** The label made of U+017F (long s), a, d. *)
Definition LONG_S_AD : str := [383; 97; 100].

(** What a computation adds to the page, whatever the world. *)
Definition emits {F A} (P : event F -> Prop) (m : M F A) : Prop :=
  forall w, exists l, page (snd (m w)) = page w ++ l /\ Forall P l.

(** A computation that leaves the files alone. *)
Definition keeps_files {F A} (m : M F A) : Prop :=
  forall w, fs (snd (m w)) = fs w.

(** An event that concerns the model [m] only, where it names a model. *)
Definition uses_model {F} (m : str) (e : event F) : Prop :=
  match e with
  | EvLoadPipeline m' => m' = m
  | EvInference m' _ => m' = m
  | _ => True
  end.

Definition is_inference {F} (e : event F) : Prop :=
  match e with EvInference _ _ => True | _ => False end.

(** A text made of whitespace only (the empty text too). *)
Definition blank (s : str) : Prop := Forall (fun c => isspace c = true) s.

(** The header line of the log file, as its format is documented. *)
Definition LOG_HEADER : str :=
  lit "timestamp,text,language,top_label,top_score,all_scores" ++ [LF].

(** The text of the fields of a log row, and the line they make. *)
Definition log_fields `{PyFloat F} (now : datetime) (text lang top_label : str)
    (top_score : F) (all_scores : list (pred F)) : list str :=
  [isoformat now; text; lang; top_label; float_repr top_score;
   json_dumps (preds_obj all_scores)].

Definition log_line `{PyFloat F} (now : datetime) (text lang top_label : str)
    (top_score : F) (all_scores : list (pred F)) : str :=
  csv_writerow (log_fields now text lang top_label top_score all_scores).

(** What the page shows for a ranked list, lines 114-135. *)
Definition shown `{PyFloat F} (ranked : list (pred F)) : list (event F) :=
  match ranked with
  | [] => []
  | top :: _ =>
      [EvPrediction (label_to_emoji (label top)) (label top) (score top)]
      ++ map (fun id => EvRanked (fst id) (label (snd id))
                          (label_to_emoji (label (snd id))) (score (snd id)))
             (enumerate 1 (take 3 ranked))
      ++ [EvTable ranked; EvChart ranked]
  end.

(** A character that is none of the comma, the quote, the line feed and
    the carriage return. *)
Definition plain_char (c : char) : Prop :=
  c <> COMMA /\ c <> QUOTE /\ c <> LF /\ c <> CR.

(** No carriage return in the string. *)
Definition no_cr (s : str) : Prop :=
  forallb (fun c => negb (N.eqb c CR)) s = true.

(** A field the reader takes as one field: the writer quoted it, or it
    holds no carriage return. *)
Definition csv_safe (s : str) : Prop :=
  existsb csv_special s = true \/ no_cr s.

(** A first field that does not begin with a blank. *)
Definition no_blank_head (s : str) : Prop :=
  match s with
  | c :: _ => is_blank c = false
  | [] => True
  end.

(** [data] is made of the complete lines [ls], of six fields each: the
    reader ends it at the start of a record. *)
Definition log_lines (data : str) (ls : list (list str)) : Prop :=
  tokenize_bytes parser_init data = mk_parser START_RECORD [] [] ls [] false
  /\ ls <> []
  /\ Forall (fun l => length l = 6%nat) ls.

Definition log_wf (data : str) : Prop := exists ls, log_lines data ls.

(** What a prediction is added to: the log file, or the header alone when
    there is no file yet. *)
Definition log_content {F} (w : world F) : str :=
  match fs w !! LOG_CSV with
  | Some old => old
  | None => LOG_HEADER
  end.

(** The number of rows [read_csv] finds in a text. *)
Definition row_count `{PyFloat F} (data : str) : nat :=
  match read_csv_text (F:=F) data with
  | Some df => length (rows df)
  | None => O
  end.

(** A character after which a number token cannot go on. *)
Definition ends_number (c : char) : Prop :=
  is_digit c = false /\ c <> 46 /\ c <> 101 /\ c <> 69 /\ c <> 43 /\ c <> 45.

(** The [repr] of the float is a JSON number with a fraction or an
    exponent, and [float] reads the float back from it. *)
Definition json_float_ok `{PyFloat F} (f : F) : Prop :=
  match match_number (float_repr f) with
  | Some (i, fr, ex, []) =>
      fr ++ ex <> [] /\ float_of_str (i ++ fr ++ ex) = Some f
  | _ => False
  end.

(** The reader takes the field for a number or for a missing value. *)
Definition number_or_na `{PyFloat F} (s : str) : bool :=
  is_na s || bool_decide (is_Some (csv_number s)).

(** A log in which every row holds a number, or nothing, as its top
    score. *)
Definition log_ok `{PyFloat F} (data : str) : Prop :=
  exists ls, log_lines data ls
             /\ forallb number_or_na (column 4 (tail ls)) = true.

(** A label the reader keeps as text: no missing-value token, no number,
    no truth value. *)
Definition read_as_text `{PyFloat F} (s : str) : Prop :=
  is_na s = false /\ csv_number s = None /\ is_bool s = false.

(** A score whose [repr] is written with the characters of a number, is
    no missing-value token, and is read back by the CSV reader as the
    score. *)
Definition csv_score_ok `{PyFloat F} (f : F) : Prop :=
  forallb numeric_char (float_repr f) = true
  /\ is_na (float_repr f) = false
  /\ csv_float (float_repr f) = Some f.

(** ** The scenarios of the specification *)

Definition SCENARIO_TEXT : str := lit "I got a promotion today!".

Definition JOY : pred cents := mk_pred (lit "joy") 91.
Definition SURPRISE : pred cents := mk_pred (lit "surprise") 5.
Definition NEUTRAL : pred cents := mk_pred (lit "neutral") 2.
Definition SADNESS : pred cents := mk_pred (lit "sadness") 1.
Definition ANGER : pred cents := mk_pred (lit "anger") 1.

Definition SCENARIO_SCORES : list (pred cents) :=
  [JOY; SURPRISE; NEUTRAL; SADNESS; ANGER].

(** A pipeline that answers every text with the scores of the scenario,
    one that answers with no score at all, and one whose only label is the
    two letters NA. *)
Definition scenario_pipeline (model text : str) : list (list (pred cents)) :=
  [SCENARIO_SCORES].
Definition empty_pipeline (model text : str) : list (list (pred cents)) :=
  [[]].
Definition NA_LABEL : pred cents := mk_pred (lit "NA") 91.

Definition NOON : datetime := mk_datetime 2024 5 17 12 0 0 0.

(** A working directory without a log file, and a page with nothing on
    it. *)
Definition NO_FILES : world cents := mk_world ∅ [].

(** Texts: blanks only; commas, a quote and a line feed; a carriage
    return between two letters. *)
Definition BLANK_TEXT : str := [32; 9; 10; 160].
Definition TRICKY_TEXT : str :=
  lit "Well, I got " ++ [34] ++ lit "promoted" ++ [34; 44; 10] ++ lit "today".
Definition CR_TEXT : str := [97; 13; 98].

(** ** More of the script *)

(** Successive runs of the script, each with its clock reading and the
    state of its widgets.  An exception ends the run in which it is
    raised, not the session: the next run starts from the world the
    failed run left. *)
Fixpoint session `{PyFloat F} (pipeline : str -> str -> list (list (pred F)))
    (steps : list (datetime * inputs)) (w : world F) : world F :=
  match steps with
  | [] => w
  | s :: steps' =>
      session pipeline steps' (snd (script pipeline (fst s) (snd s) w))
  end.


(** A run in which the predict button is pressed on a text that is not
    blank, the pipeline answers with a top prediction, and the text, the
    language, the top label and the top score are written without a
    carriage return. *)
Definition clean_prediction `{PyFloat F}
    (pipeline : str -> str -> list (list (pred F)))
    (s : datetime * inputs) : Prop :=
  predict_clicked (snd s) = true
  /\ clear_clicked (snd s) = false
  /\ py_not (strip (text (snd s))) = false
  /\ no_cr (text (snd s)) /\ no_cr (lang (snd s))
  /\ exists preds rest top more,
       pipeline (select_model (lang (snd s))) (text (snd s)) = preds :: rest
       /\ rank preds = top :: more
       /\ no_cr (label top) /\ no_cr (float_repr (score top)).

(** Two predictions in a row, for the statements about sessions. *)
Definition TWO_PREDICTIONS : list (datetime * inputs) :=
  [(NOON, mk_inputs LANG_EN SCENARIO_TEXT true false);
   (NOON, mk_inputs LANG_MULTI TRICKY_TEXT true false)].

(** ** Proof automation *)

(** Rewrites the tests [N.eqb a b] whose arguments are known to differ. *)
Ltac eqb_false :=
  repeat match goal with
  | H : ?a <> ?b |- context [N.eqb ?a ?b] =>
      rewrite (proj2 (N.eqb_neq a b) H)
  end.

(** Replaces the literals of the script by their code points. *)
Ltac eval_lits :=
  repeat match goal with
  | |- context [lit ?s] =>
      let v := eval vm_compute in (lit s) in change (lit s) with v
  end.


(** * Properties *)

(** ** The ranking *)

Section Ranking.
Context `{PyFloat F}.

Lemma float_lt_true (x y : F) : float_lt x y = true -> (fval x < fval y)%Q.
Proof.
  unfold float_lt. intros Hlt. apply negb_true_iff in Hlt.
  apply Qnot_le_lt. intros Hle. apply Qle_bool_iff in Hle. congruence.
Qed.

Lemma float_lt_false (x y : F) : float_lt x y = false -> (fval y <= fval x)%Q.
Proof.
  unfold float_lt. intros Hlt. apply negb_false_iff in Hlt.
  by apply Qle_bool_iff.
Qed.

Lemma insert_stable_perm (x : pred F) (l : list (pred F)) :
  insert_stable score float_lt x l ≡ₚ x :: l.
Proof.
  induction l as [|y l IH]; simpl; [done|].
  destruct (float_lt (score y) (score x)); [|done].
  rewrite IH. apply Permutation_swap.
Qed.

Lemma sort_stable_perm (l : list (pred F)) :
  sort_stable score float_lt l ≡ₚ l.
Proof.
  induction l as [|x l IH]; simpl; [done|].
  by rewrite insert_stable_perm, IH.
Qed.

Lemma insert_stable_sorted (x : pred F) (l : list (pred F)) :
  StronglySorted score_le l ->
  StronglySorted score_le (insert_stable score float_lt x l).
Proof.
  induction 1 as [|y l Hs IH Hall]; simpl.
  - repeat constructor.
  - destruct (float_lt (score y) (score x)) eqn:Hlt.
    + constructor; [done|].
      rewrite insert_stable_perm. constructor; [|done].
      apply float_lt_true in Hlt. by apply Qlt_le_weak.
    + apply float_lt_false in Hlt.
      constructor; [by constructor|].
      constructor; [done|].
      eapply Forall_impl; [exact Hall|].
      intros z Hz. unfold score_le in *. by eapply Qle_trans.
Qed.

Lemma sort_stable_sorted (l : list (pred F)) :
  StronglySorted score_le (sort_stable score float_lt l).
Proof.
  induction l as [|x l IH]; simpl; [constructor|].
  by apply insert_stable_sorted.
Qed.

Lemma sorted_snoc (R : relation (pred F)) (l : list (pred F)) (x : pred F) :
  StronglySorted R l -> Forall (fun y => R y x) l -> StronglySorted R (l ++ [x]).
Proof.
  induction 1 as [|y l Hs IH Hall]; simpl; intros Hx.
  - repeat constructor.
  - inversion Hx; subst. constructor; [by apply IH|].
    apply Forall_app; split; [done|]. by constructor.
Qed.

Lemma sorted_rev (l : list (pred F)) :
  StronglySorted score_le l -> StronglySorted score_ge (rev l).
Proof.
  induction 1 as [|y l Hs IH Hall]; simpl; [constructor|].
  apply sorted_snoc; [done|].
  apply Forall_rev. exact Hall.
Qed.

Lemma with_score_insert (q : Q) (x : pred F) (l : list (pred F)) :
  with_score q (insert_stable score float_lt x l) = with_score q (x :: l).
Proof.
  induction l as [|y l IH]; [done|].
  cbn [insert_stable].
  destruct (float_lt (score y) (score x)) eqn:Hlt; [|done].
  unfold with_score in *. cbn [List.filter] in *. rewrite IH.
  destruct (Qeq_bool (fval (score y)) q) eqn:Hy;
    destruct (Qeq_bool (fval (score x)) q) eqn:Hx; try done.
  exfalso. apply float_lt_true in Hlt.
  apply Qeq_bool_iff in Hy, Hx.
  rewrite Hy, Hx in Hlt. by apply Qlt_irrefl in Hlt.
Qed.

Lemma with_score_sort (q : Q) (l : list (pred F)) :
  with_score q (sort_stable score float_lt l) = with_score q l.
Proof.
  induction l as [|x l IH]; [done|].
  cbn [sort_stable]. rewrite with_score_insert.
  unfold with_score in *. cbn [List.filter]. by rewrite IH.
Qed.

Lemma with_score_rev (q : Q) (l : list (pred F)) :
  with_score q (rev l) = rev (with_score q l).
Proof.
  unfold with_score. induction l as [|x l IH]; [done|].
  cbn [rev List.filter]. rewrite List.filter_app, IH. cbn [List.filter].
  destruct (Qeq_bool _ _); simpl; [done|]. by rewrite app_nil_r.
Qed.

Lemma rank_perm (preds : list (pred F)) : rank preds ≡ₚ preds.
Proof.
  unfold rank, sorted.
  by rewrite <- Permutation_rev, sort_stable_perm, <- Permutation_rev.
Qed.

(** C3. The ranking is a permutation of the scores the pipeline returned,
    in non-increasing order of score, in which the predictions of equal
    score keep the order they had; [top3] is its first three items and
    [top] its first (an [IndexError] when there is none). *)
Theorem rank_is_stable_descending_sort (preds : list (pred F)) :
  rank preds ≡ₚ preds
  /\ StronglySorted score_ge (rank preds)
  /\ (forall q, with_score q (rank preds) = with_score q preds)
  /\ slice_to 3 (rank preds) = take 3 (rank preds)
  /\ getitem (slice_to 3 (rank preds)) 0
     = match rank preds with p :: _ => Ok p | [] => Raise IndexError end.
Proof.
  split; [apply rank_perm|].
  split; [apply sorted_rev, sort_stable_sorted|].
  split.
  - intros q. unfold rank, sorted.
    by rewrite with_score_rev, with_score_sort, with_score_rev, rev_involutive.
  - split; [done|]. unfold getitem, slice_to. by destruct (rank preds).
Qed.

End Ranking.

(** ** The emoji of a label *)

Lemma lt_128_cases (c : N) : c < 128 -> In c (map N.of_nat (seq 0 128)).
Proof.
  intros Hc. apply in_map_iff. exists (N.to_nat c).
  split; [lia|]. apply in_seq. lia.
Qed.

Lemma lower_upper_ascii_char (c : N) :
  c < 128 ->
  flat_map (case_lookup LOWER_TABLE) (case_lookup UPPER_TABLE c)
  = case_lookup LOWER_TABLE c.
Proof.
  intros Hc. apply lt_128_cases in Hc. revert c Hc.
  apply List.Forall_forall. vm_compute. repeat constructor.
Qed.

Lemma lower_lower_ascii_char (c : N) :
  c < 128 ->
  flat_map (case_lookup LOWER_TABLE) (case_lookup LOWER_TABLE c)
  = case_lookup LOWER_TABLE c.
Proof.
  intros Hc. apply lt_128_cases in Hc. revert c Hc.
  apply List.Forall_forall. vm_compute. repeat constructor.
Qed.

Lemma lower_upper_ascii (L : str) : is_ascii L -> lower (upper L) = lower L.
Proof.
  unfold lower, upper. induction 1 as [|c L Hc HL IH]; [done|].
  cbn [flat_map]. rewrite flat_map_app, IH.
  by rewrite lower_upper_ascii_char.
Qed.

Lemma lower_lower_ascii (L : str) : is_ascii L -> lower (lower L) = lower L.
Proof.
  unfold lower. induction 1 as [|c L Hc HL IH]; [done|].
  cbn [flat_map]. rewrite flat_map_app, IH.
  by rewrite lower_lower_ascii_char.
Qed.

(** C6, as the code has it.  On ASCII labels the emoji does not depend on
    the case of the label; on every label, one whose lower-cased form is no
    key of the mapping gets the default glyph.  ([label_to_emoji] is a
    function on all strings: it returns on every label.) *)
Theorem label_to_emoji_ascii_case_insensitive :
  (forall L : str, is_ascii L ->
     label_to_emoji L = label_to_emoji (upper L)
     /\ label_to_emoji (upper L) = label_to_emoji (lower L))
  /\ (forall L : str, EMOJI_MAP !! lower L = None ->
        label_to_emoji L = BLUE_SQUARE).
Proof.
  split.
  - intros L HL. unfold label_to_emoji.
    by rewrite lower_upper_ascii, lower_lower_ascii.
  - intros L HL. unfold label_to_emoji, dict_get. by rewrite HL.
Qed.

Lemma label_to_emoji_ascii_case_insensitive_witness :
  is_ascii (lit "JoY")
  /\ label_to_emoji (lit "JoY") = label_to_emoji (upper (lit "JoY"))
  /\ label_to_emoji (upper (lit "JoY")) = label_to_emoji (lower (lit "JoY")).
Proof.
  split.
  - repeat constructor.
  - apply (proj1 label_to_emoji_ascii_case_insensitive). repeat constructor.
Defined.

(** C6, as the specification states it, fails on a label outside ASCII:
    the upper case of U+017F is the letter S, so the upper-cased label is
    found in the mapping, while the label itself is not. *)
Lemma label_to_emoji_case_counterexample :
  label_to_emoji LONG_S_AD = BLUE_SQUARE
  /\ label_to_emoji (upper LONG_S_AD) = CRY
  /\ label_to_emoji LONG_S_AD <> label_to_emoji (upper LONG_S_AD).
Proof. vm_compute. repeat split; congruence. Qed.



(** ** Computations, the page and the choice of the model *)

Section Effects.
Context `{PyFloat F}.

Lemma bind_run {A B} (m : M F A) (f : A -> M F B) (w : world F) :
  (m ≫= f) w
  = match m w with
    | (Ok a, w') => f a w'
    | (Raise e, w') => (Raise e, w')
    end.
Proof. reflexivity. Qed.

Lemma emits_ret {A} (P : event F -> Prop) (a : A) : emits P (mret a : M F A).
Proof. intros w. exists []. by rewrite app_nil_r. Qed.

Lemma emits_bind {A B} (P : event F -> Prop) (m : M F A) (f : A -> M F B) :
  emits P m -> (forall a, emits P (f a)) -> emits P (m ≫= f).
Proof.
  intros Hm Hf w. rewrite bind_run.
  destruct (Hm w) as (l1 & E1 & P1). destruct (m w) as [[a|e] w1]; simpl in *.
  - destruct (Hf a w1) as (l2 & E2 & P2). exists (l1 ++ l2).
    rewrite E2, E1, app_assoc. split; [done|]. by apply Forall_app.
  - by exists l1.
Qed.

Lemma emits_emit (P : event F -> Prop) (e : event F) : P e -> emits P (emit e).
Proof. intros He w. exists [e]. split; [done|]. by constructor. Qed.

Lemma emits_silent {A} (P : event F -> Prop) (m : M F A) :
  (forall w, page (snd (m w)) = page w) -> emits P m.
Proof. intros Hm w. exists []. by rewrite app_nil_r, Hm. Qed.

Lemma emits_try {A} (P : event F -> Prop) (m : M F A) (h : exn -> M F A) :
  emits P m -> (forall e, emits P (h e)) -> emits P (try_except m h).
Proof.
  intros Hm Hh w. unfold try_except.
  destruct (Hm w) as (l1 & E1 & P1). destruct (m w) as [[a|e] w1]; simpl in *.
  - by exists l1.
  - destruct (Hh e w1) as (l2 & E2 & P2). exists (l1 ++ l2).
    rewrite E2, E1, app_assoc. split; [done|]. by apply Forall_app.
Qed.

Lemma emits_for_each {A} (P : event F -> Prop) (l : list A) (body : A -> M F unit) :
  (forall a, emits P (body a)) -> emits P (for_each l body).
Proof.
  intros Hb. induction l as [|x l IH]; simpl.
  - apply emits_ret.
  - apply emits_bind; [apply Hb|]. intros _. exact IH.
Qed.

Lemma emits_if {A} (P : event F -> Prop) (b : bool) (m1 m2 : M F A) :
  emits P m1 -> emits P m2 -> emits P (if b then m1 else m2).
Proof. by destruct b. Qed.

Lemma emits_path_exists (P : event F -> Prop) (p : string) :
  emits P (path_exists p : M F bool).
Proof. by apply emits_silent. Qed.

Lemma emits_lift {A} (P : event F -> Prop) (r : result A) :
  emits P (lift r : M F A).
Proof. by apply emits_silent. Qed.

Lemma emits_os_remove (P : event F -> Prop) (p : string) :
  emits P (os_remove p : M F unit).
Proof. apply emits_silent. intros w. unfold os_remove. by destruct (fs w !! p). Qed.

Lemma emits_read_file (P : event F -> Prop) (p : string) :
  emits P (read_file p : M F str).
Proof. apply emits_silent. intros w. unfold read_file. by destruct (fs w !! p). Qed.

Lemma emits_to_csv (P : event F -> Prop) df p m h :
  emits P (to_csv df p m h).
Proof. by apply emits_silent. Qed.

Lemma emits_read_csv (P : event F -> Prop) (p : string) :
  emits P (read_csv p).
Proof.
  apply emits_silent. intros w. unfold read_csv.
  destruct (fs w !! p); [|done].
  destruct (tokenize_all _); [|done]. by destruct (frame_of_tokens _).
Qed.

Lemma emits_save_prediction (P : event F -> Prop) now text lang l s all :
  emits P (save_prediction now text lang l s all).
Proof.
  unfold save_prediction. apply emits_bind; [apply emits_path_exists|].
  intros found. apply emits_if; apply emits_to_csv.
Qed.

Lemma keeps_bind {A B} (m : M F A) (f : A -> M F B) :
  keeps_files m -> (forall a, keeps_files (f a)) -> keeps_files (m ≫= f).
Proof.
  intros Hm Hf w. rewrite bind_run. specialize (Hm w).
  destruct (m w) as [[a|e] w1]; simpl in *; [|done]. by rewrite Hf.
Qed.

Lemma keeps_emit (e : event F) : keeps_files (emit e).
Proof. by intros w. Qed.

Lemma keeps_read_csv (p : string) : keeps_files (read_csv p).
Proof.
  intros w. unfold read_csv. destruct (fs w !! p); [|done].
  destruct (tokenize_all _); [|done]. by destruct (frame_of_tokens _).
Qed.

Lemma keeps_read_file (p : string) : keeps_files (read_file p : M F str).
Proof. intros w. unfold read_file. by destruct (fs w !! p). Qed.

Lemma keeps_try {A} (m : M F A) (h : exn -> M F A) :
  keeps_files m -> (forall e, keeps_files (h e)) -> keeps_files (try_except m h).
Proof.
  intros Hm Hh w. unfold try_except. specialize (Hm w).
  destruct (m w) as [[a|e] w1]; simpl in *; [done|]. by rewrite Hh.
Qed.

Lemma keeps_show_log : keeps_files (show_log (F:=F)).
Proof.
  unfold show_log. apply keeps_bind; [done|]. intros [|]; [|apply keeps_emit].
  apply keeps_try; [|intros; apply keeps_emit].
  apply keeps_bind; [apply keeps_read_csv|]. intros df.
  apply keeps_bind; [apply keeps_emit|]. intros _.
  apply keeps_bind; [apply keeps_read_file|]. intros data. apply keeps_emit.
Qed.

(** The log panel never raises: what [read_csv] raises is caught. *)
Lemma show_log_ok (w : world F) : fst (show_log w) = Ok tt.
Proof.
  unfold show_log. rewrite bind_run. cbn [path_exists].
  destruct (bool_decide _); [|done].
  unfold try_except. rewrite bind_run.
  destruct (read_csv LOG_CSV w) as [[df|e] w1]; [|done].
  rewrite bind_run. cbn [emit]. rewrite bind_run.
  by destruct (read_file LOG_CSV _) as [[data|e] w2].
Qed.

Lemma emits_show_log (P : event F -> Prop) :
  (forall n, P (EvTotal n)) -> (forall d, P (EvDownload d)) ->
  (forall s, P (EvWrite s)) -> emits P (show_log (F:=F)).
Proof.
  intros Ht Hd Hw. unfold show_log.
  apply emits_bind; [apply emits_path_exists|]. intros [|]; [|by apply emits_emit].
  apply emits_try; [|intros; by apply emits_emit].
  apply emits_bind; [apply emits_read_csv|]. intros df.
  apply emits_bind; [by apply emits_emit|]. intros _.
  apply emits_bind; [apply emits_read_file|]. intros data. by apply emits_emit.
Qed.

Variable pipeline : str -> str -> list (list (pred F)).
Variable now : datetime.

Lemma emits_clear_action (P : event F -> Prop) :
  (forall s, P (EvSuccess s)) -> (forall s, P (EvInfo s)) ->
  emits P (clear_action (F:=F)).
Proof.
  intros Hs Hi. unfold clear_action.
  apply emits_bind; [apply emits_path_exists|]. intros [|]; [|by apply emits_emit].
  apply emits_bind; [apply emits_os_remove|]. intros _. by apply emits_emit.
Qed.

Lemma emits_predict_action (inp : inputs) :
  emits (uses_model (select_model (lang inp)))
    (predict_action pipeline now inp (select_model (lang inp))).
Proof.
  unfold predict_action. apply emits_if; [by apply emits_emit|].
  apply emits_bind; [by apply emits_emit|]. intros _.
  apply emits_bind; [apply emits_lift|]. intros preds.
  apply emits_bind; [apply emits_lift|]. intros top.
  apply emits_bind; [by apply emits_emit|]. intros _.
  apply emits_bind; [apply emits_for_each; intros; by apply emits_emit|]. intros _.
  apply emits_bind; [by apply emits_emit|]. intros _.
  apply emits_bind; [by apply emits_emit|]. intros _.
  apply emits_bind; [apply emits_save_prediction|]. intros _.
  by apply emits_emit.
Qed.

(** C7. The model is chosen from the language selector alone: the choice
    [English (fast)] gives the English model, [Hindi / Multilingual] and
    every other value that does not start with [English] give the
    multilingual one, and in a run of the script, whatever the text, every
    loading and every inference names the model chosen for the language. *)
Theorem model_chosen_by_language_only :
  select_model LANG_EN = EN_MODEL
  /\ select_model LANG_MULTI = MULTI_MODEL
  /\ (forall l, select_model l = EN_MODEL \/ select_model l = MULTI_MODEL)
  /\ (forall l, startswith l (lit "English") = false ->
        select_model l = MULTI_MODEL)
  /\ (forall inp, emits (uses_model (select_model (lang inp)))
                    (script pipeline now inp)).
Proof.
  split; [done|]. split; [done|]. split.
  { intros l. unfold select_model. destruct (startswith _ _); auto. }
  split.
  { intros l Hl. unfold select_model. by rewrite Hl. }
  intros inp. unfold script.
  apply emits_bind; [by apply emits_emit|]. intros _.
  apply emits_bind.
  { apply emits_if; [apply emits_predict_action|apply emits_ret]. }
  intros _. apply emits_bind; [by apply emits_show_log|]. intros _.
  apply emits_if; [by apply emits_clear_action|apply emits_ret].
Qed.

End Effects.

(** ** The log file *)

Section Log.
Context `{PyFloat F}.
Variable pipeline : str -> str -> list (list (pred F)).
Variable now : datetime.

Lemma header_text :
  csv_writerow (map lit ["timestamp"; "text"; "language"; "top_label";
                         "top_score"; "all_scores"]%string) = LOG_HEADER.
Proof. vm_compute. reflexivity. Qed.

Lemma save_prediction_run (t : datetime) (text lang top_label : str)
    (top_score : F) (all_scores : list (pred F)) (w : world F) :
  save_prediction t text lang top_label top_score all_scores w
  = (Ok tt,
     mk_world
       (<[LOG_CSV := match fs w !! LOG_CSV with
                     | Some old => old
                     | None => LOG_HEADER
                     end ++ log_line t text lang top_label top_score all_scores]>
          (fs w))
       (page w)).
Proof.
  unfold save_prediction. rewrite bind_run. cbn [path_exists].
  unfold to_csv, log_line, log_fields.
  destruct (fs w !! LOG_CSV) as [old|] eqn:Hold.
  - rewrite bool_decide_eq_true_2 by eauto. cbn [negb].
    f_equal. f_equal. f_equal.
    unfold to_csv_text, DataFrame_of_records.
    cbn [rows columns map snd concat cell_text app]. rewrite Hold.
    cbn [default]. by rewrite app_nil_r.
  - rewrite bool_decide_eq_false_2 by (intros [? ?]; done). cbn [negb].
    f_equal. f_equal. f_equal.
    unfold to_csv_text, DataFrame_of_records.
    cbn [rows columns map snd fst concat cell_text].
    rewrite app_nil_r. by rewrite <- header_text.
Qed.

(** C2. [save_prediction] always succeeds and leaves the page alone.  When
    the log file is absent it creates it with the header line and the one
    row; when the file exists it adds the one row after what the file
    held, and writes no header. *)
Theorem save_prediction_creates_or_appends (t : datetime)
    (text lang top_label : str) (top_score : F) (all_scores : list (pred F))
    (w : world F) :
  fst (save_prediction t text lang top_label top_score all_scores w) = Ok tt
  /\ page (snd (save_prediction t text lang top_label top_score all_scores w))
     = page w
  /\ (fs w !! LOG_CSV = None ->
      fs (snd (save_prediction t text lang top_label top_score all_scores w))
      = <[LOG_CSV := LOG_HEADER
                     ++ log_line t text lang top_label top_score all_scores]>
          (fs w))
  /\ (forall old, fs w !! LOG_CSV = Some old ->
      fs (snd (save_prediction t text lang top_label top_score all_scores w))
      = <[LOG_CSV := old
                     ++ log_line t text lang top_label top_score all_scores]>
          (fs w)).
Proof.
  rewrite save_prediction_run. cbn [fst snd fs page].
  split; [done|]. split; [done|]. split.
  - intros Hw. by rewrite Hw.
  - intros old Hw. by rewrite Hw.
Qed.

Lemma blank_strip (s : str) : blank s -> strip s = [].
Proof.
  intros Hs. unfold strip.
  assert (lstrip s = []) as ->; [|done].
  induction Hs as [|c s Hc Hs IH]; [done|]. simpl. by rewrite Hc.
Qed.

Lemma read_csv_fs (p : string) (w1 w2 : world F) :
  fs w1 = fs w2 -> fst (read_csv p w1) = fst (read_csv p w2).
Proof.
  intros Hfs. unfold read_csv. rewrite Hfs.
  destruct (fs w2 !! p); [|done].
  destruct (tokenize_all _); [|done]. by destruct (frame_of_tokens _).
Qed.

(** C4. With an empty or whitespace-only text, the predict action shows
    the warning and does nothing else: no inference is asked for and no
    file is written.  The whole run succeeds, leaves the files as they
    were, shows no inference after the warning, and the log reads back as
    it did before. *)
Theorem blank_text_is_rejected (inp : inputs) (w : world F) :
  blank (text inp) ->
  predict_clicked inp = true ->
  clear_clicked inp = false ->
  predict_action pipeline now inp (select_model (lang inp)) w
  = (Ok tt, mk_world (fs w) (page w ++ [EvWarning MSG_EMPTY]))
  /\ fst (script pipeline now inp w) = Ok tt
  /\ fs (snd (script pipeline now inp w)) = fs w
  /\ (exists l,
        page (snd (script pipeline now inp w))
        = page w ++ EvLoadPipeline (select_model (lang inp))
                 :: EvWarning MSG_EMPTY :: l
        /\ Forall (fun e => ~ is_inference e) l)
  /\ fst (read_csv LOG_CSV (snd (script pipeline now inp w)))
     = fst (read_csv LOG_CSV w).
Proof.
  intros Hblank Hp Hc.
  assert (predict_action pipeline now inp (select_model (lang inp)) w
          = (Ok tt, mk_world (fs w) (page w ++ [EvWarning MSG_EMPTY]))) as Hpa.
  { unfold predict_action. by rewrite blank_strip. }
  split; [exact Hpa|].
  assert (forall w0,
    script pipeline now inp w0
    = show_log (mk_world (fs w0)
        ((page w0 ++ [EvLoadPipeline (select_model (lang inp))])
           ++ [EvWarning MSG_EMPTY]))) as Hrun.
  { intros w0. unfold script. rewrite Hp, Hc.
    rewrite bind_run. cbn [emit].
    unfold predict_action. rewrite blank_strip by done. cbn [py_not].
    rewrite bind_run. cbn [emit fs page]. rewrite bind_run.
    destruct (show_log _) as [[[]|e] w1]; reflexivity. }
  rewrite Hrun.
  split; [apply show_log_ok|].
  split; [by rewrite keeps_show_log|].
  split.
  - destruct (emits_show_log (fun e => ~ is_inference e)
                (fun _ => id) (fun _ => id) (fun _ => id)
                (mk_world (fs w)
                   ((page w ++ [EvLoadPipeline (select_model (lang inp))])
                      ++ [EvWarning MSG_EMPTY]))) as (l & El & Pl).
    exists l. split; [|done]. rewrite El. cbn [page].
    by rewrite <- !app_assoc.
  - apply read_csv_fs. by rewrite keeps_show_log.
Qed.

(** C5. The clear action never raises.  It leaves no log file; it reports
    success when there was one and reports that there is none otherwise,
    so a second clear right after is the informational no-op.  A run of
    the script with the clear button pressed succeeds, and so does the
    same run repeated. *)
Theorem clear_is_idempotent (w : world F) :
  fst (clear_action w) = Ok tt
  /\ fs (snd (clear_action w)) = delete LOG_CSV (fs w)
  /\ (is_Some (fs w !! LOG_CSV) ->
      page (snd (clear_action w)) = page w ++ [EvSuccess MSG_CLEARED])
  /\ (fs w !! LOG_CSV = None ->
      snd (clear_action w) = mk_world (fs w) (page w ++ [EvInfo MSG_NO_FILE]))
  /\ clear_action (snd (clear_action w))
     = (Ok tt, mk_world (fs (snd (clear_action w)))
                 (page (snd (clear_action w)) ++ [EvInfo MSG_NO_FILE]))
  /\ (forall inp, clear_clicked inp = true -> predict_clicked inp = false ->
      fst (script pipeline now inp w) = Ok tt
      /\ fst (script pipeline now inp (snd (script pipeline now inp w))) = Ok tt).
Proof.
  assert (forall w0 : world F, fs w0 !! LOG_CSV = None ->
            clear_action w0
            = (Ok tt, mk_world (fs w0) (page w0 ++ [EvInfo MSG_NO_FILE]))) as Habsent.
  { intros w0 Hw0. unfold clear_action. rewrite bind_run. cbn [path_exists].
    rewrite bool_decide_eq_false_2; [done|]. rewrite Hw0. by intros [? ?]. }
  assert (forall (w0 : world F) old, fs w0 !! LOG_CSV = Some old ->
            clear_action w0
            = (Ok tt, mk_world (delete LOG_CSV (fs w0))
                        (page w0 ++ [EvSuccess MSG_CLEARED]))) as Hpresent.
  { intros w0 old Hw0. unfold clear_action. rewrite bind_run. cbn [path_exists].
    rewrite bool_decide_eq_true_2 by eauto.
    rewrite bind_run. unfold os_remove. by rewrite Hw0. }
  assert (forall w0 : world F, fst (clear_action w0) = Ok tt) as Hok.
  { intros w0. destruct (fs w0 !! LOG_CSV) as [old|] eqn:Hw0.
    - by erewrite Hpresent.
    - by rewrite Habsent. }
  assert (fs (snd (clear_action w)) !! LOG_CSV = None) as Hgone.
  { destruct (fs w !! LOG_CSV) as [old|] eqn:Hw.
    - erewrite Hpresent by done. cbn. apply lookup_delete_eq.
    - by rewrite Habsent. }
  split; [apply Hok|]. split.
  { destruct (fs w !! LOG_CSV) as [old|] eqn:Hw.
    - by erewrite Hpresent.
    - rewrite Habsent by done. cbn. by rewrite delete_id. }
  split.
  { intros [old Hw]. by erewrite Hpresent. }
  split; [intros Hw; by rewrite Habsent|].
  split; [by apply Habsent|].
  intros inp Hc Hp.
  assert (forall w0, fst (script pipeline now inp w0) = Ok tt) as Hscript.
  { intros w0. unfold script. rewrite Hc, Hp.
    rewrite bind_run. cbn [emit]. rewrite bind_run. cbn [mret M_ret].
    rewrite bind_run.
    pose proof (show_log_ok
      (mk_world (fs w0) (page w0 ++ [EvLoadPipeline (select_model (lang inp))]))) as Hs.
    destruct (show_log _) as [[[]|e] w1]; cbn in Hs; [|done].
    apply Hok. }
  split; apply Hscript.
Qed.

Lemma for_each_emit {A} (l : list A) (g : A -> event F) (w : world F) :
  for_each l (fun a => emit (g a)) w
  = (Ok tt, mk_world (fs w) (page w ++ map g l)).
Proof.
  revert w. induction l as [|x l IH]; intros w; simpl.
  - rewrite app_nil_r. by destruct w.
  - rewrite bind_run. cbn [emit]. rewrite IH. cbn [fs page].
    by rewrite <- app_assoc.
Qed.

Lemma predict_action_run (inp : inputs) (model : str) (w : world F)
    (preds : list (pred F)) (rest : list (list (pred F)))
    (top : pred F) (more : list (pred F)) :
  py_not (strip (text inp)) = false ->
  pipeline model (text inp) = preds :: rest ->
  rank preds = top :: more ->
  predict_action pipeline now inp model w
  = (Ok tt,
     mk_world
       (<[LOG_CSV := match fs w !! LOG_CSV with
                     | Some old => old
                     | None => LOG_HEADER
                     end ++ log_line now (text inp) (lang inp) (label top)
                              (score top) (rank preds)]> (fs w))
       (page w ++ [EvInference model (text inp)] ++ shown (rank preds)
          ++ [EvSuccess MSG_SAVED])).
Proof.
  intros Htext Hpipe Hrank. unfold predict_action. rewrite Htext.
  rewrite bind_run. cbn [emit]. rewrite Hpipe.
  rewrite bind_run. cbn [lift getitem lookup list_lookup].
  rewrite Hrank. cbn [slice_to take].
  rewrite bind_run. cbn [lift getitem lookup list_lookup].
  rewrite bind_run. cbn [emit fs page].
  rewrite bind_run, for_each_emit. cbn [fs page].
  rewrite bind_run. cbn [emit fs page].
  rewrite bind_run. cbn [emit fs page].
  rewrite bind_run, save_prediction_run. cbn [emit fs page].
  unfold shown, emit. cbn [fs page]. f_equal. f_equal.
  rewrite <- !app_assoc. reflexivity.
Qed.

(** C9. When the pipeline answers with an empty list of scores, taking
    the top prediction raises [IndexError]: nothing is shown after the
    inference and no file is written.  When it answers with at least one
    score, the predict action succeeds. *)
Theorem empty_scores_raise_IndexError (inp : inputs) (model : str)
    (w : world F) (preds : list (pred F)) (rest : list (list (pred F))) :
  py_not (strip (text inp)) = false ->
  pipeline model (text inp) = preds :: rest ->
  (preds = [] ->
     predict_action pipeline now inp model w
     = (Raise IndexError,
        mk_world (fs w) (page w ++ [EvInference model (text inp)])))
  /\ (preds <> [] -> fst (predict_action pipeline now inp model w) = Ok tt).
Proof.
  intros Htext Hpipe. split.
  - intros ->. unfold predict_action. rewrite Htext.
    rewrite bind_run. cbn [emit]. by rewrite Hpipe.
  - intros Hne. destruct (rank preds) as [|top more] eqn:Hrank.
    + exfalso. apply Hne. apply Permutation_nil_r.
      rewrite <- Hrank. symmetry. apply rank_perm.
    + by erewrite predict_action_run.
Qed.

End Log.

(** ** Reading back what the CSV writer wrote *)

Lemma tokenize_bytes_app (p : parser) (a b : str) :
  tokenize_bytes p (a ++ b) = tokenize_bytes (tokenize_bytes p a) b.
Proof. apply fold_left_app. Qed.

Lemma tokenize_bytes_cons (p : parser) (c : char) (s : str) :
  tokenize_bytes p (c :: s) = tokenize_bytes (tokenize_char p c) s.
Proof. reflexivity. Qed.

Lemma end_line_ext (p q : parser) :
  fields p = fields q -> lines p = lines q -> failed p = failed q ->
  end_line p = end_line q.
Proof. intros Hf Hl Hb. unfold end_line. by rewrite Hf, Hl, Hb. Qed.

Lemma tok_plain (f : str) (p : parser) :
  Forall plain_char f -> state p = IN_FIELD ->
  tokenize_bytes p f
  = mk_parser IN_FIELD (word p ++ f) (fields p) (lines p) (blanks p) (failed p).
Proof.
  revert p. induction f as [|c f IH]; intros p Hf Hs.
  - cbn. rewrite app_nil_r. destruct p; cbn in *; by subst.
  - inversion Hf as [|? ? (Hc1 & Hc2 & Hc3 & Hc4) Hf']; subst.
    rewrite tokenize_bytes_cons.
    assert (tokenize_char p c = push_char c p) as ->.
    { unfold tokenize_char. rewrite Hs. unfold on_in_field. by eqb_false. }
    rewrite IH by done. cbn. by rewrite <- app_assoc.
Qed.

Lemma tok_quoted_body (f : str) (p : parser) :
  state p = IN_QUOTED_FIELD ->
  tokenize_bytes p (flat_map csv_double f)
  = mk_parser IN_QUOTED_FIELD (word p ++ f) (fields p) (lines p) (blanks p)
      (failed p).
Proof.
  revert p. induction f as [|c f IH]; intros p Hs.
  - cbn. rewrite app_nil_r. destruct p; cbn in *; by subst.
  - cbn [flat_map]. rewrite tokenize_bytes_app. unfold csv_double at 1.
    destruct (N.eqb_spec c QUOTE) as [->|Hc].
    + rewrite !tokenize_bytes_cons. cbn [tokenize_bytes fold_left].
      unfold tokenize_char at 2. rewrite Hs. cbn [N.eqb QUOTE Pos.eqb].
      unfold tokenize_char. cbn [state set_state]. cbn [N.eqb QUOTE Pos.eqb].
      rewrite IH by done. cbn. by rewrite <- app_assoc.
    + rewrite tokenize_bytes_cons. cbn [tokenize_bytes fold_left].
      unfold tokenize_char. rewrite Hs. eqb_false.
      rewrite IH by done. cbn. by rewrite <- app_assoc.
Qed.

Lemma unquoted_plain (f : str) :
  existsb csv_special f = false -> no_cr f -> Forall plain_char f.
Proof.
  unfold no_cr. induction f as [|c f IH]; cbn; intros Hs Hc; [constructor|].
  apply orb_false_iff in Hs as [Hs1 Hs2].
  apply andb_true_iff in Hc as [Hc1 Hc2].
  constructor; [|by apply IH].
  unfold csv_special in Hs1.
  apply orb_false_iff in Hs1 as [Hs1 H3]. apply orb_false_iff in Hs1 as [H1 H2].
  apply N.eqb_neq in H1, H2, H3. apply negb_true_iff, N.eqb_neq in Hc1.
  done.
Qed.

Lemma read_quoted (f : str) (fl : list str) (ls : list (list str))
    (bl : str) (fd : bool) :
  tokenize_bytes (mk_parser START_FIELD [] fl ls bl fd)
    ([QUOTE] ++ flat_map csv_double f ++ [QUOTE])
  = mk_parser QUOTE_IN_QUOTED_FIELD f fl ls bl fd.
Proof.
  cbn [app]. rewrite tokenize_bytes_cons.
  change (tokenize_char (mk_parser START_FIELD [] fl ls bl fd) QUOTE)
    with (mk_parser IN_QUOTED_FIELD [] fl ls bl fd).
  rewrite tokenize_bytes_app. by rewrite (tok_quoted_body f).
Qed.

Lemma read_unquoted (c : char) (f : str) (fl : list str)
    (ls : list (list str)) (bl : str) (fd : bool) :
  Forall plain_char (c :: f) ->
  tokenize_bytes (mk_parser START_FIELD [] fl ls bl fd) (c :: f)
  = mk_parser IN_FIELD (c :: f) fl ls bl fd.
Proof.
  intros Hplain.
  inversion Hplain as [|? ? (Hc1 & Hc2 & Hc3 & Hc4) Hf']; subst.
  rewrite tokenize_bytes_cons.
  assert (tokenize_char (mk_parser START_FIELD [] fl ls bl fd) c
          = mk_parser IN_FIELD [c] fl ls bl fd) as ->.
  { unfold tokenize_char, on_start_field. cbn [state]. by eqb_false. }
  by rewrite tok_plain.
Qed.

(** One field and the comma after it, read at the start of a field. *)
Lemma read_field_comma (f : str) (p : parser) :
  state p = START_FIELD -> word p = [] -> csv_safe f ->
  tokenize_bytes p (csv_field f ++ [COMMA])
  = mk_parser START_FIELD [] (fields p ++ [f]) (lines p) (blanks p) (failed p).
Proof.
  destruct p as [st wd fl ls bl fd]. cbn [state word fields lines blanks failed].
  intros -> -> Hsafe. rewrite tokenize_bytes_app. unfold csv_field.
  destruct (existsb csv_special f) eqn:Hq.
  - by rewrite read_quoted.
  - destruct Hsafe as [Hsafe|Hsafe]; [congruence|].
    pose proof (unquoted_plain f Hq Hsafe) as Hplain.
    destruct f as [|c f]; [done|]. by rewrite read_unquoted.
Qed.

(** The last field of a line and the line feed after it. *)
Lemma read_field_lf (f : str) (p : parser) :
  state p = START_FIELD -> word p = [] -> csv_safe f ->
  tokenize_bytes p (csv_field f ++ [LF])
  = end_line (mk_parser START_FIELD [] (fields p ++ [f]) (lines p) (blanks p)
                (failed p)).
Proof.
  destruct p as [st wd fl ls bl fd]. cbn [state word fields lines blanks failed].
  intros -> -> Hsafe. rewrite tokenize_bytes_app. unfold csv_field.
  destruct (existsb csv_special f) eqn:Hq.
  - by rewrite read_quoted.
  - destruct Hsafe as [Hsafe|Hsafe]; [congruence|].
    pose proof (unquoted_plain f Hq Hsafe) as Hplain.
    destruct f as [|c f]; [done|]. by rewrite read_unquoted.
Qed.

Lemma read_fields (l : list str) (p : parser) :
  l <> [] -> state p = START_FIELD -> word p = [] -> Forall csv_safe l ->
  tokenize_bytes p (join [COMMA] (map csv_field l) ++ [LF])
  = end_line (mk_parser START_FIELD [] (fields p ++ l) (lines p) (blanks p)
                (failed p)).
Proof.
  revert p. induction l as [|f l IH]; intros p Hne Hs Hw Hl; [done|].
  inversion Hl as [|? ? Hf Hl']; subst.
  destruct l as [|g l].
  - cbn [map join]. by apply read_field_lf.
  - change (join [COMMA] (map csv_field (f :: g :: l)))
      with (csv_field f ++ [COMMA] ++ join [COMMA] (map csv_field (g :: l))).
    rewrite <- !app_assoc, app_assoc, tokenize_bytes_app.
    rewrite read_field_comma by done.
    rewrite IH by done. cbn. by rewrite <- app_assoc.
Qed.

Lemma start_record_as_field (c : char) (s : str) (ls : list (list str))
    (fd : bool) :
  c <> LF -> c <> CR -> is_blank c = false ->
  tokenize_bytes (mk_parser START_RECORD [] [] ls [] fd) (c :: s)
  = tokenize_bytes (mk_parser START_FIELD [] [] ls [] fd) (c :: s).
Proof.
  intros H1 H2 H3. rewrite !tokenize_bytes_cons. f_equal.
  unfold tokenize_char, on_start_record. cbn [state]. eqb_false. by rewrite H3.
Qed.

Lemma field_head (f : str) (rest : str) :
  csv_safe f -> no_blank_head f ->
  exists c s, csv_field f ++ [COMMA] ++ rest = c :: s
              /\ c <> LF /\ c <> CR /\ is_blank c = false.
Proof.
  intros Hsafe Hhead. unfold csv_field.
  destruct (existsb csv_special f) eqn:Hq.
  - eexists QUOTE, _. by split.
  - destruct Hsafe as [Hsafe|Hsafe]; [congruence|].
    pose proof (unquoted_plain f Hq Hsafe) as Hplain.
    destruct f as [|c f].
    + eexists COMMA, _. by split.
    + inversion Hplain as [|? ? (Hc1 & Hc2 & Hc3 & Hc4) Hf']; subst.
      eexists c, _. by split.
Qed.

(** A written line of at least two fields is read as one line. *)
Lemma read_row (f g : str) (l : list str) (ls : list (list str)) (fd : bool) :
  Forall csv_safe (f :: g :: l) -> no_blank_head f ->
  tokenize_bytes (mk_parser START_RECORD [] [] ls [] fd)
    (csv_writerow (f :: g :: l))
  = end_line (mk_parser START_FIELD [] (f :: g :: l) ls [] fd).
Proof.
  intros Hsafe Hhead.
  assert (csv_writerow (f :: g :: l)
          = join [COMMA] (map csv_field (f :: g :: l)) ++ [LF]) as ->.
  { unfold csv_writerow. by destruct f. }
  inversion Hsafe as [|? ? Hf Hrest]; subst.
  destruct (field_head f (join [COMMA] (map csv_field (g :: l)) ++ [LF]) Hf Hhead)
    as (c & s & Hcs & H1 & H2 & H3).
  assert (join [COMMA] (map csv_field (f :: g :: l)) ++ [LF] = c :: s) as Hline.
  { rewrite <- Hcs. cbn [map join]. by rewrite <- !app_assoc. }
  rewrite Hline, start_record_as_field by done. rewrite <- Hline.
  by rewrite read_fields.
Qed.

Lemma log_lines_header :
  log_lines LOG_HEADER
    [map lit ["timestamp"; "text"; "language"; "top_label"; "top_score";
              "all_scores"]%string].
Proof.
  split; [vm_compute; reflexivity|]. split; [done|]. by repeat constructor.
Qed.

Lemma last_length_six (ls : list (list str)) :
  ls <> [] -> Forall (fun l => length l = 6%nat) ls ->
  exists l, last ls = Some l /\ length l = 6%nat.
Proof.
  intros Hne Hall. destruct (last ls) as [l|] eqn:Hl.
  - exists l. split; [done|].
    apply last_Some in Hl as [ls' ->]. apply Forall_app in Hall as [_ Hall].
    by inversion Hall.
  - by apply last_None in Hl.
Qed.

Lemma log_lines_append (data : str) (ls : list (list str)) (l : list str) :
  log_lines data ls -> length l = 6%nat ->
  Forall csv_safe l -> no_blank_head (default [] (head l)) ->
  log_lines (data ++ csv_writerow l) (ls ++ [l]).
Proof.
  intros (Htok & Hne & Hall) Hlen Hsafe Hhead.
  split; [|split].
  - rewrite tokenize_bytes_app, Htok.
    destruct l as [|f [|g l]]; [done|done|].
    rewrite read_row by done. unfold end_line. cbn [fields lines failed].
    destruct (last_length_six ls Hne Hall) as (l0 & -> & ->).
    rewrite Hlen.
    replace ((6 <? 6)%nat) with false by done. rewrite andb_false_r.
    destruct ls as [|l1 ls]; [done|]. cbn [length Nat.leb Nat.sub replicate].
    by rewrite app_nil_r.
  - by destruct ls.
  - apply Forall_app. split; [done|]. by constructor.
Qed.

Lemma log_lines_tokens (data : str) (ls : list (list str)) :
  log_lines data ls -> tokenize_all data = Tokens ls.
Proof. intros (Htok & _). unfold tokenize_all. by rewrite Htok. Qed.

Section Rows.
Context `{PyFloat F}.

Lemma frame_rows (ls : list (list str)) :
  ls <> [] ->
  exists df : DataFrame F,
    frame_of_tokens ls = Some df /\ length (rows df) = (length ls - 1)%nat.
Proof.
  destruct ls as [|header body]; [done|]. intros _.
  eexists. split; [reflexivity|]. cbn. rewrite !length_map. lia.
Qed.

Lemma row_count_lines (data : str) (ls : list (list str)) :
  log_lines data ls -> row_count (F:=F) data = (length ls - 1)%nat.
Proof.
  intros Hls. unfold row_count, read_csv_text.
  rewrite (log_lines_tokens _ _ Hls).
  destruct Hls as (_ & Hne & _).
  by destruct (frame_rows ls Hne) as (df & -> & ->).
Qed.

End Rows.

(** The timestamp is made of digits and of the marks of the ISO format. *)
Lemma zpad_plain (w : nat) (n : N) : Forall plain_char (zpad w n).
Proof.
  revert n. induction w as [|w IH]; intros n; cbn [zpad]; [done|].
  assert (n mod 10 < 10) as Hd by (apply N.mod_lt; lia).
  generalize dependent (n mod 10). intros d Hd.
  apply Forall_app. split; [apply IH|]. constructor; [|done].
  unfold plain_char, COMMA, QUOTE, LF, CR. lia.
Qed.

Lemma zpad_not_blank (w : nat) (n : N) :
  Forall (fun c => is_blank c = false) (zpad w n).
Proof.
  revert n. induction w as [|w IH]; intros n; cbn [zpad]; [done|].
  assert (n mod 10 < 10) as Hd by (apply N.mod_lt; lia).
  generalize dependent (n mod 10). intros d Hd.
  apply Forall_app. split; [apply IH|]. constructor; [|done].
  unfold is_blank. apply orb_false_iff. split; apply N.eqb_neq; lia.
Qed.

Lemma zpad_head (w : nat) (n : N) (rest : str) :
  no_blank_head (zpad (S w) n ++ rest).
Proof.
  pose proof (zpad_not_blank (S w) n) as Hb.
  destruct (zpad (S w) n) as [|c s] eqn:Hz.
  - cbn [zpad] in Hz. by destruct (zpad w (n / 10)).
  - cbn. by inversion Hb.
Qed.

Lemma isoformat_plain (d : datetime) : Forall plain_char (isoformat d).
Proof.
  unfold isoformat. rewrite !Forall_app.
  repeat split; try apply zpad_plain; try (by repeat constructor).
  destruct (N.eqb _ _); [constructor|].
  rewrite Forall_app. split; [by repeat constructor|apply zpad_plain].
Qed.

Lemma isoformat_head (d : datetime) : no_blank_head (isoformat d).
Proof. unfold isoformat. apply zpad_head. Qed.

Lemma plain_no_cr (s : str) : Forall plain_char s -> no_cr s.
Proof.
  unfold no_cr. induction 1 as [|c s (_ & _ & _ & Hc) Hs IH]; [done|].
  cbn. rewrite IH. by apply N.eqb_neq in Hc as ->.
Qed.

(** ** One prediction, one row *)

Section Growth.
Context `{PyFloat F}.
Variable pipeline : str -> str -> list (list (pred F)).
Variable now : datetime.

Lemma json_field_safe (l : list (pred F)) : csv_safe (json_dumps (preds_obj l)).
Proof.
  unfold csv_safe. destruct l as [|p l].
  - right. reflexivity.
  - left. unfold preds_obj. cbn [map json_dumps].
    destruct (map json_dumps (map pred_obj l)); reflexivity.
Qed.

Lemma log_fields_safe (text lang top_label : str) (top_score : F)
    (all_scores : list (pred F)) :
  no_cr text -> no_cr lang -> no_cr top_label -> no_cr (float_repr top_score) ->
  Forall csv_safe (log_fields now text lang top_label top_score all_scores).
Proof.
  intros H1 H2 H3 H4. unfold log_fields.
  apply List.Forall_cons; [right; apply plain_no_cr, isoformat_plain|].
  do 4 (apply List.Forall_cons; [by right|]).
  apply List.Forall_cons; [apply json_field_safe|]. apply List.Forall_nil.
Qed.

Lemma log_lines_save (data : str) (ls : list (list str))
    (text lang top_label : str) (top_score : F) (all_scores : list (pred F)) :
  log_lines data ls ->
  no_cr text -> no_cr lang -> no_cr top_label -> no_cr (float_repr top_score) ->
  log_lines (data ++ log_line now text lang top_label top_score all_scores)
    (ls ++ [log_fields now text lang top_label top_score all_scores]).
Proof.
  intros Hls H1 H2 H3 H4. unfold log_line.
  apply log_lines_append; [done|done|by apply log_fields_safe|].
  apply isoformat_head.
Qed.

Lemma show_log_run (w : world F) (data : str) (ls : list (list str)) :
  fs w !! LOG_CSV = Some data -> log_lines data ls ->
  show_log w
  = (Ok tt, mk_world (fs w)
              (page w ++ [EvTotal (length ls - 1); EvDownload data])).
Proof.
  intros Hw Hls. unfold show_log. rewrite bind_run. cbn [path_exists].
  rewrite bool_decide_eq_true_2 by eauto.
  unfold try_except. rewrite bind_run. unfold read_csv. rewrite Hw.
  rewrite (log_lines_tokens _ _ Hls).
  destruct Hls as (_ & Hne & _).
  destruct (frame_rows (F:=F) ls Hne) as (df & -> & <-).
  rewrite bind_run. cbn [emit]. rewrite bind_run.
  unfold read_file. cbn [fs page]. rewrite Hw. cbn [emit fs page].
  by rewrite <- app_assoc.
Qed.

(** Where no carriage return is written.  A successful prediction whose
    text, language, top label and top score hold no carriage return
    leaves what the log held in place and adds one line after it; the log
    then reads as one more row, whatever commas, quotes or line feeds the
    text holds, and the page shows that count. *)
Theorem prediction_adds_one_row (inp : inputs) (w : world F)
    (preds : list (pred F)) (rest : list (list (pred F)))
    (top : pred F) (more : list (pred F)) :
  predict_clicked inp = true ->
  clear_clicked inp = false ->
  py_not (strip (text inp)) = false ->
  pipeline (select_model (lang inp)) (text inp) = preds :: rest ->
  rank preds = top :: more ->
  log_wf (log_content w) ->
  no_cr (text inp) -> no_cr (lang inp) -> no_cr (label top) ->
  no_cr (float_repr (score top)) ->
  fst (script pipeline now inp w) = Ok tt
  /\ fs (snd (script pipeline now inp w)) !! LOG_CSV
     = Some (log_content w
             ++ log_line now (text inp) (lang inp) (label top) (score top)
                  (rank preds))
  /\ log_wf (log_content (snd (script pipeline now inp w)))
  /\ row_count (F:=F) (log_content (snd (script pipeline now inp w)))
     = S (row_count (F:=F) (log_content w))
  /\ exists before,
       page (snd (script pipeline now inp w))
       = before ++ [EvTotal (S (row_count (F:=F) (log_content w)));
                    EvDownload
                      (log_content w
                       ++ log_line now (text inp) (lang inp) (label top)
                            (score top) (rank preds))].
Proof.
  intros Hp Hc Htext Hpipe Hrank (ls & Hls) H1 H2 H3 H4.
  pose proof (log_lines_save _ _ _ _ _ _ (rank preds) Hls H1 H2 H3 H4) as Hls'.
  set (line := log_line now (text inp) (lang inp) (label top) (score top)
                 (rank preds)) in *.
  set (l := log_fields now (text inp) (lang inp) (label top) (score top)
              (rank preds)) in *.
  set (before := (page w ++ [EvLoadPipeline (select_model (lang inp))])
                 ++ [EvInference (select_model (lang inp)) (text inp)]
                 ++ shown (rank preds) ++ [EvSuccess MSG_SAVED]).
  assert (script pipeline now inp w
          = (Ok tt,
             mk_world (<[LOG_CSV := log_content w ++ line]> (fs w))
               (before ++ [EvTotal (length (ls ++ [l]) - 1);
                           EvDownload (log_content w ++ line)]))) as Hrun.
  { unfold script. rewrite Hp, Hc. rewrite bind_run. cbn [emit].
    rewrite bind_run.
    erewrite predict_action_run by done. cbn [fs page].
    rewrite bind_run.
    erewrite show_log_run; [reflexivity| |exact Hls'].
    cbn [fs]. apply lookup_insert_eq. }
  rewrite Hrun. cbn [fst snd fs page].
  assert (row_count (F:=F) (log_content w) = (length ls - 1)%nat) as Hn
    by by apply row_count_lines.
  assert (length ls <> 0%nat) as Hlen.
  { destruct Hls as (_ & Hne & _). by destruct ls. }
  assert (forall pg, log_content (mk_world (F:=F)
                       (<[LOG_CSV := log_content w ++ line]> (fs w)) pg)
                     = log_content w ++ line) as Hcontent.
  { intros pg. unfold log_content at 1. cbn [fs]. by rewrite lookup_insert_eq. }
  split; [done|]. split; [apply lookup_insert_eq|].
  rewrite Hcontent.
  split; [by eexists|]. split.
  - rewrite (row_count_lines _ _ Hls'), Hn, length_app. cbn. lia.
  - exists before. f_equal. f_equal. f_equal.
    rewrite Hn, length_app. cbn. lia.
Qed.

End Growth.

(** ** Decoding what [json.dumps] wrote *)

Lemma lt_32_cases (c : N) : c < 32 -> In c (map N.of_nat (seq 0 32)).
Proof.
  intros Hc. apply in_map_iff. exists (N.to_nat c).
  split; [lia|]. apply in_seq. lia.
Qed.

Lemma scanstring_char (c : char) (s acc : str) :
  scanstring (json_escape_char c ++ s) acc = scanstring s (acc ++ [c]).
Proof.
  destruct (N.ltb_spec c 32) as [Hc|Hc].
  - apply lt_32_cases in Hc. cbn in Hc.
    repeat (destruct Hc as [<-|Hc]; [reflexivity|]). done.
  - destruct (N.eqb_spec c 34) as [->|H34]; [reflexivity|].
    destruct (N.eqb_spec c 92) as [->|H92]; [reflexivity|].
    assert (json_escape_char c = [c]) as ->.
    { unfold json_escape_char.
      rewrite (proj2 (N.eqb_neq c 34)), (proj2 (N.eqb_neq c 92)) by done.
      rewrite (proj2 (N.eqb_neq c 10)), (proj2 (N.eqb_neq c 13)) by lia.
      rewrite (proj2 (N.eqb_neq c 9)), (proj2 (N.eqb_neq c 8)) by lia.
      rewrite (proj2 (N.eqb_neq c 12)) by lia.
      by rewrite (proj2 (N.ltb_ge c 32)). }
    cbn [app scanstring].
    rewrite (proj2 (N.eqb_neq c 34)), (proj2 (N.eqb_neq c 92)) by done.
    by rewrite (proj2 (N.ltb_ge c 32)).
Qed.

(** A JSON string is read back as the string it encodes. *)
Lemma scanstring_json_string (s acc rest : str) :
  scanstring (flat_map json_escape_char s ++ 34 :: rest) acc
  = Some (acc ++ s, rest).
Proof.
  revert acc. induction s as [|c s IH]; intros acc.
  - cbn. by rewrite app_nil_r.
  - cbn [flat_map]. rewrite <- app_assoc, scanstring_char, IH.
    by rewrite <- app_assoc.
Qed.

Lemma span_digits_app (s : str) (c : char) (rest : str) :
  is_digit c = false ->
  span_digits (s ++ c :: rest)
  = (fst (span_digits s), snd (span_digits s) ++ c :: rest).
Proof.
  intros Hc. induction s as [|a s IH]; cbn [app span_digits].
  - by rewrite Hc.
  - destruct (is_digit a); [|done].
    rewrite IH. by destruct (span_digits s).
Qed.

Lemma scan_frac_app (s : str) (c : char) (rest : str) :
  ends_number c ->
  scan_frac (s ++ c :: rest)
  = (fst (scan_frac s), snd (scan_frac s) ++ c :: rest).
Proof.
  intros (Hd & H46 & _). destruct s as [|a s]; cbn [app scan_frac].
  - by rewrite (proj2 (N.eqb_neq c 46)).
  - destruct (N.eqb a 46); [|done].
    rewrite span_digits_app by done.
    by destruct (span_digits s) as [[|d ds] r].
Qed.

Lemma scan_exp_app (s : str) (c : char) (rest : str) :
  ends_number c ->
  scan_exp (s ++ c :: rest)
  = (fst (scan_exp s), snd (scan_exp s) ++ c :: rest).
Proof.
  intros (Hd & _ & H101 & H69 & H43 & H45).
  destruct s as [|a s]; cbn [app scan_exp].
  - by rewrite (proj2 (N.eqb_neq c 101)), (proj2 (N.eqb_neq c 69)).
  - destruct (N.eqb a 101 || N.eqb a 69); [|done].
    destruct s as [|g s]; cbn [app].
    + rewrite (proj2 (N.eqb_neq c 43)), (proj2 (N.eqb_neq c 45)) by done.
      cbn [orb span_digits]. by rewrite Hd.
    + destruct (N.eqb g 43 || N.eqb g 45).
      * rewrite span_digits_app by done.
        by destruct (span_digits s) as [[|d ds] r].
      * change (g :: s ++ c :: rest) with ((g :: s) ++ c :: rest).
        rewrite (span_digits_app (g :: s)) by done.
        by destruct (span_digits (g :: s)) as [[|d ds] r].
Qed.

Lemma scan_int_app (s : str) (c : char) (rest : str) (i r : str) :
  ends_number c -> scan_int s = Some (i, r) ->
  scan_int (s ++ c :: rest) = Some (i, r ++ c :: rest).
Proof.
  intros (Hd & _) Hs. unfold scan_int in *.
  destruct s as [|a s]; [done|]. cbn [app].
  destruct (N.eqb a 45).
  - destruct s as [|b s]; [done|]. cbn [app].
    destruct (N.eqb b 48); [by inversion Hs|].
    destruct (is_digit b); [|done].
    rewrite span_digits_app by done.
    destruct (span_digits s) as [d r0]. by inversion Hs.
  - destruct (N.eqb a 48); [by inversion Hs|].
    destruct (is_digit a); [|done].
    rewrite span_digits_app by done.
    destruct (span_digits s) as [d r0]. by inversion Hs.
Qed.

(** A number token is read the same when a character that cannot be part
    of it follows. *)
Lemma match_number_app (s : str) (c : char) (rest : str) (i fr ex r : str) :
  ends_number c -> match_number s = Some (i, fr, ex, r) ->
  match_number (s ++ c :: rest) = Some (i, fr, ex, r ++ c :: rest).
Proof.
  intros Hc Hs. unfold match_number in *.
  destruct (scan_int s) as [[i0 r1]|] eqn:Hi; [|done].
  rewrite (scan_int_app _ _ rest _ _ Hc Hi).
  rewrite scan_frac_app by done.
  destruct (scan_frac r1) as [f0 r2]. cbn [fst snd].
  rewrite scan_exp_app by done.
  destruct (scan_exp r2) as [e0 r3]. cbn [fst snd]. by inversion Hs.
Qed.

Lemma match_number_head (s : str) (i fr ex r : str) :
  match_number s = Some (i, fr, ex, r) ->
  exists c t, s = c :: t /\ (c = 45 \/ is_digit c = true).
Proof.
  unfold match_number, scan_int. intros Hs.
  destruct s as [|a s]; [done|]. exists a, s. split; [done|].
  destruct (N.eqb_spec a 45) as [->|Ha]; [by left|]. right.
  destruct (N.eqb_spec a 48) as [->|Ha']; [done|].
  by destruct (is_digit a).
Qed.

Section JsonRoundTrip.
Context `{PyFloat F}.

Lemma pred_obj_text (p : pred F) :
  json_dumps (pred_obj p)
  = [123; 34] ++ lit "label" ++ [34; 58; 32; 34]
    ++ flat_map json_escape_char (label p)
    ++ [34; 44; 32; 34] ++ lit "score" ++ [34; 58; 32]
    ++ float_repr (score p) ++ [125].
Proof.
  unfold pred_obj. cbn [json_dumps map join fst snd].
  unfold json_string. eval_lits. cbn. rewrite <- !app_assoc. reflexivity.
Qed.

Lemma scan_number_float (n : nat) (f : F) (rest : str) :
  json_float_ok f ->
  scan_once (S n) (float_repr f ++ 125 :: rest) = Some (JFloat f, 125 :: rest).
Proof.
  unfold json_float_ok. intros Hok.
  destruct (match_number (float_repr f)) as [[[[i fr] ex] r]|] eqn:Hm; [|done].
  destruct r; [|done]. destruct Hok as [Hne Hf].
  destruct (match_number_head _ _ _ _ _ Hm) as (c & t & Hs & Hc).
  assert (ends_number 125) as Hend by (repeat split; done).
  pose proof (match_number_app _ 125 rest _ _ _ _ Hend Hm) as Hm'.
  rewrite Hs in *. cbn [app] in *.
  assert (c <> 34 /\ c <> 123 /\ c <> 91 /\ 110 <> c /\ 116 <> c /\ 102 <> c)
    as (H34 & H123 & H91 & H110 & H116 & H102).
  { destruct Hc as [->|Hd]; [done|]. unfold is_digit in Hd.
    apply andb_true_iff in Hd as [Hlo Hhi].
    apply N.leb_le in Hlo, Hhi. lia. }
  cbn [scan_once]. eval_lits. cbn [startswith].
  rewrite (proj2 (N.eqb_neq c 34)), (proj2 (N.eqb_neq c 123)) by done.
  rewrite (proj2 (N.eqb_neq c 91)), (proj2 (N.eqb_neq 110 c)) by done.
  rewrite (proj2 (N.eqb_neq 116 c)), (proj2 (N.eqb_neq 102 c)) by done.
  cbn [andb]. rewrite Hm'.
  destruct fr as [|f1 fr]; [destruct ex as [|e1 ex]; [done|]|];
    by rewrite Hf.
Qed.

Lemma skip_ws_number (f : F) (rest : str) :
  json_float_ok f -> skip_ws (float_repr f ++ rest) = float_repr f ++ rest.
Proof.
  unfold json_float_ok. intros Hok.
  destruct (match_number (float_repr f)) as [[[[i fr] ex] r]|] eqn:Hm; [|done].
  destruct (match_number_head _ _ _ _ _ Hm) as (c & t & -> & Hc).
  cbn [app skip_ws].
  assert (is_json_ws c = false) as ->; [|done].
  unfold is_json_ws.
  destruct Hc as [->|Hd]; [done|]. unfold is_digit in Hd.
  apply andb_true_iff in Hd as [Hlo Hhi]. apply N.leb_le in Hlo, Hhi.
  rewrite (proj2 (N.eqb_neq c 32)), (proj2 (N.eqb_neq c 9)) by lia.
  by rewrite (proj2 (N.eqb_neq c 10)), (proj2 (N.eqb_neq c 13)) by lia.
Qed.

Section Loops.
Variable scan : str -> option (json F * str).
Hypothesis scan_str : forall s rest,
  scan (34 :: flat_map json_escape_char s ++ 34 :: rest) = Some (JStr s, rest).
Hypothesis scan_num : forall f rest, json_float_ok f ->
  scan (float_repr f ++ 125 :: rest) = Some (JFloat f, 125 :: rest).

(** The text of one prediction, after its opening brace. *)
Lemma JSONObject_pred (p : pred F) (t rest : str) :
  json_float_ok (score p) ->
  json_dumps (pred_obj p) ++ rest = 123 :: t ->
  JSONObject scan t = Some (pred_obj p, rest).
Proof.
  intros Hok Htext. rewrite pred_obj_text in Htext. revert Htext. eval_lits.
  rewrite <- !app_assoc. cbn [app]. intros [= <-].
  remember (float_repr (score p) ++ 125 :: rest) as tail2 eqn:E2.
  remember (flat_map json_escape_char (label p) ++ 34 :: 44 :: 32 :: 34 :: 115
            :: 99 :: 111 :: 114 :: 101 :: 34 :: 58 :: 32 :: tail2)
    as tail1 eqn:E1.
  cbn. rewrite E1, scan_str. cbn.
  rewrite E2, skip_ws_number, scan_num by done. cbn.
  reflexivity.
Qed.
End Loops.

Lemma pred_obj_head (p : pred F) :
  exists t, json_dumps (pred_obj p) = 123 :: 34 :: t.
Proof. rewrite pred_obj_text. by eexists. Qed.

Lemma skip_ws_pred_obj (p : pred F) (rest : str) :
  skip_ws (json_dumps (pred_obj p) ++ rest) = json_dumps (pred_obj p) ++ rest.
Proof. destruct (pred_obj_head p) as [t ->]. reflexivity. Qed.

Lemma length_elements (p : pred F) (l : list (pred F)) :
  (length l
   < length (join (lit ", ") (map json_dumps (map pred_obj (p :: l)))))%nat.
Proof.
  revert p. induction l as [|q l IH]; intros p.
  - cbn [map join]. destruct (pred_obj_head p) as [t ->]. cbn. lia.
  - change (join (lit ", ") (map json_dumps (map pred_obj (p :: q :: l))))
      with (json_dumps (pred_obj p) ++ lit ", "
            ++ join (lit ", ") (map json_dumps (map pred_obj (q :: l)))).
    rewrite !length_app. specialize (IH q).
    change (length (lit ", ")) with 2%nat. cbn [length]. lia.
Qed.

Section ArrayLoop.
Variable scan : str -> option (json F * str).
Hypothesis scan_obj : forall p rest, json_float_ok (score p) ->
  scan (json_dumps (pred_obj p) ++ rest) = Some (pred_obj p, rest).

Lemma array_loop_preds (l : list (pred F)) (p : pred F)
    (acc : list (json F)) (k : nat) (rest : str) :
  Forall (fun q => json_float_ok (score q)) (p :: l) ->
  (length l < k)%nat ->
  array_loop scan k
    (join (lit ", ") (map json_dumps (map pred_obj (p :: l))) ++ 93 :: rest) acc
  = Some (JList (acc ++ map pred_obj (p :: l)), rest).
Proof.
  revert p acc k. induction l as [|q l IH]; intros p acc k Hok Hk.
  - destruct k as [|k]; [lia|]. inversion Hok; subst.
    cbn [map join array_loop]. by rewrite scan_obj.
  - destruct k as [|k]; [cbn in Hk; lia|]. inversion Hok; subst.
    change (join (lit ", ") (map json_dumps (map pred_obj (p :: q :: l))))
      with (json_dumps (pred_obj p) ++ 44 :: 32
            :: join (lit ", ") (map json_dumps (map pred_obj (q :: l)))).
    rewrite <- app_assoc. cbn [array_loop]. rewrite scan_obj by done.
    cbn [app skip_ws is_json_ws N.eqb Pos.eqb orb].
    assert (skip_ws (join (lit ", ") (map json_dumps (map pred_obj (q :: l)))
                     ++ 93 :: rest)
            = join (lit ", ") (map json_dumps (map pred_obj (q :: l)))
              ++ 93 :: rest) as ->.
    { destruct l as [|q' l].
      - cbn [map join]. apply skip_ws_pred_obj.
      - change (join (lit ", ") (map json_dumps (map pred_obj (q :: q' :: l))))
          with (json_dumps (pred_obj q) ++ lit ", "
                ++ join (lit ", ") (map json_dumps (map pred_obj (q' :: l)))).
        rewrite <- app_assoc. apply skip_ws_pred_obj. }
    rewrite IH; [|done|cbn in Hk; lia].
    by rewrite <- app_assoc.
Qed.

Lemma JSONArray_nonempty (s t : str) :
  skip_ws s = 123 :: t ->
  JSONArray scan s = array_loop scan (length s) (skip_ws s) [].
Proof. intros Hs. unfold JSONArray. by rewrite Hs. Qed.

Lemma JSONArray_preds (p : pred F) (l : list (pred F)) (rest : str) :
  Forall (fun q => json_float_ok (score q)) (p :: l) ->
  JSONArray scan
    (join (lit ", ") (map json_dumps (map pred_obj (p :: l))) ++ 93 :: rest)
  = Some (JList (map pred_obj (p :: l)), rest).
Proof.
  intros Hok.
  assert (exists t, join (lit ", ") (map json_dumps (map pred_obj (p :: l)))
                    = 123 :: t) as [t Ht].
  { destruct l as [|q l].
    - cbn [map join]. destruct (pred_obj_head p) as [t ->]. by eexists.
    - change (join (lit ", ") (map json_dumps (map pred_obj (p :: q :: l))))
        with (json_dumps (pred_obj p) ++ lit ", "
              ++ join (lit ", ") (map json_dumps (map pred_obj (q :: l)))).
      destruct (pred_obj_head p) as [t ->]. by eexists. }
  pose proof (length_elements p l) as Hlen.
  assert (skip_ws (join (lit ", ") (map json_dumps (map pred_obj (p :: l)))
                   ++ 93 :: rest)
          = join (lit ", ") (map json_dumps (map pred_obj (p :: l)))
            ++ 93 :: rest) as Hskip by by rewrite Ht.
  rewrite (JSONArray_nonempty _ (t ++ 93 :: rest)) by by rewrite Hskip, Ht.
  rewrite Hskip.
  apply (array_loop_preds l p []); [done|]. rewrite length_app. lia.
Qed.
End ArrayLoop.

Lemma scan_once_pred_obj (n : nat) (p : pred F) (rest : str) :
  json_float_ok (score p) ->
  scan_once (S (S n)) (json_dumps (pred_obj p) ++ rest)
  = Some (pred_obj p, rest).
Proof.
  intros Hok. destruct (pred_obj_head p) as [t Ht].
  assert (json_dumps (pred_obj p) ++ rest = 123 :: 34 :: t ++ rest) as Ht'
    by by rewrite Ht.
  rewrite Ht'.
  change (scan_once (S (S n)) (123 :: 34 :: t ++ rest))
    with (JSONObject (scan_once (S n)) (34 :: t ++ rest)).
  apply JSONObject_pred; [| |done|done].
  - intros s r.
    change (scan_once (S n) (34 :: flat_map json_escape_char s ++ 34 :: r))
      with (match scanstring (flat_map json_escape_char s ++ 34 :: r) [] with
            | Some (x, r') => Some (JStr (F:=F) x, r')
            | None => None
            end).
    by rewrite scanstring_json_string.
  - intros f r Hf. by apply scan_number_float.
Qed.

(** Decoding the JSON text of a list of predictions gives the list back,
    when [float] reads every score back from its [repr]. *)
Lemma json_loads_dumps (l : list (pred F)) :
  Forall (fun q => json_float_ok (score q)) l ->
  json_loads (json_dumps (preds_obj l)) = Some (preds_obj l).
Proof.
  intros Hok. destruct l as [|p l]; [reflexivity|].
  unfold json_loads, preds_obj.
  assert (json_dumps (JList (map pred_obj (p :: l)))
          = 91 :: join (lit ", ") (map json_dumps (map pred_obj (p :: l)))
               ++ [93]) as -> by reflexivity.
  cbn [skip_ws is_json_ws N.eqb Pos.eqb orb length].
  pose proof (length_elements p l) as Hlen.
  destruct (pred_obj_head p) as [t Ht].
  remember (join (lit ", ") (map json_dumps (map pred_obj (p :: l)))) as body
    eqn:Hbody.
  assert (exists n, length (body ++ [93]) = S (S n)) as [n Hn].
  { rewrite length_app. cbn [length].
    assert (2 <= length body)%nat.
    { rewrite Hbody. destruct l as [|q l].
      - cbn [map join]. rewrite Ht. cbn. lia.
      - change (join (lit ", ") (map json_dumps (map pred_obj (p :: q :: l))))
          with (json_dumps (pred_obj p) ++ lit ", "
                ++ join (lit ", ") (map json_dumps (map pred_obj (q :: l)))).
        rewrite Ht. cbn. lia. }
    exists (length body + 1 - 2)%nat. lia. }
  rewrite Hn.
  change (scan_once (S (S (S n))) (91 :: body ++ [93]))
    with (JSONArray (scan_once (S (S n))) (body ++ [93])).
  rewrite Hbody, JSONArray_preds; [done| |done].
  intros q r Hq. by apply scan_once_pred_obj.
Qed.

End JsonRoundTrip.

(** ** The round trip of a log row *)

Section RoundTrip.
Context `{PyFloat F}.

Lemma numeric_no_cr (s : str) : forallb numeric_char s = true -> no_cr s.
Proof.
  unfold no_cr. induction s as [|c s IH]; [done|]. cbn [forallb].
  intros [Hc Hs]%andb_true_iff. rewrite IH by done. rewrite andb_true_r.
  destruct (N.eqb_spec c CR) as [->|]; [|done]. by vm_compute in Hc.
Qed.

Lemma json_text_head (l : list (pred F)) :
  exists t, json_dumps (preds_obj l) = 91 :: t.
Proof. by eexists. Qed.

Lemma bracket_not_na (t : str) :
  is_na (91 :: t) = false /\ is_bool (91 :: t) = false
  /\ csv_number (F:=F) (91 :: t) = None.
Proof. by vm_compute. Qed.

Lemma forallb_snoc_false {A} (f : A -> bool) (l : list A) (x : A) :
  f x = false -> forallb f (l ++ [x]) = false.
Proof.
  intros Hx. rewrite forallb_app. cbn. rewrite Hx. by rewrite andb_false_r.
Qed.

Lemma column_snoc (j : nat) (body : list (list str)) (l : list str) :
  column j (body ++ [l]) = column j body ++ [default [] (l !! j)].
Proof. unfold column. by rewrite map_app. Qed.

Lemma infer_kind_text (col : list str) (s : str) :
  read_as_text s -> infer_kind (F:=F) (col ++ [s]) = KObject.
Proof.
  intros (Hna & Hnum & Hbool). unfold infer_kind.
  rewrite !forallb_snoc_false; [done| |].
  - by rewrite Hna, Hbool.
  - by rewrite Hna, Hnum.
Qed.

Lemma convert_text (s : str) :
  is_na s = false -> convert (F:=F) KObject s = Text s.
Proof. intros Hna. unfold convert. by rewrite Hna. Qed.

Lemma map_drop_0 {A} (l : list (list A)) : map (drop 0) l = l.
Proof. induction l as [|x l IH]; [done|]. cbn. by rewrite IH. Qed.

(** C1, as the code has it.  A row is saved to a log whose earlier rows
    hold numbers as top scores.  When its text, language and top label
    hold no carriage return, the label is one the reader keeps as text,
    the reader reads the top score back from its [repr], and [float]
    reads every score back from its [repr], the log reads back with a
    last row whose [top_label] and [top_score] are those of the
    prediction and whose [all_scores] decodes to the ranked list. *)
Theorem log_round_trip (t : datetime) (text lang : str) (top : pred F)
    (ranked : list (pred F)) (w : world F) :
  log_ok (log_content w) ->
  no_cr text -> no_cr lang -> no_cr (label top) ->
  read_as_text (label top) ->
  csv_score_ok (score top) ->
  Forall (fun q => json_float_ok (score q)) ranked ->
  exists df r,
    fst (read_csv LOG_CSV
           (snd (save_prediction t text lang (label top) (score top) ranked w)))
    = Ok df
    /\ last (rows df) = Some r
    /\ r !! 3%nat = Some (Text (label top))
    /\ r !! 4%nat = Some (Num (score top))
    /\ r !! 5%nat = Some (Text (json_dumps (preds_obj ranked)))
    /\ json_loads (json_dumps (preds_obj ranked)) = Some (preds_obj ranked).
Proof.
  intros (ls & Hls & Hcol) H1 H2 H3 Hlabel (Hchars & Hna & Hcsv) Hjson.
  pose proof (numeric_no_cr _ Hchars) as H4.
  pose proof (log_lines_save t _ _ text lang (label top) (score top) ranked
                Hls H1 H2 H3 H4) as Hls'.
  rewrite save_prediction_run. cbn [snd].
  unfold read_csv. cbn [fs]. rewrite lookup_insert_eq.
  fold (log_content w). rewrite (log_lines_tokens _ _ Hls').
  destruct Hls as (_ & Hne & Hsix).
  destruct ls as [|header body]; [done|].
  assert (length header = 6%nat) as Hheader by by inversion Hsix.
  assert (Forall (fun l => length l = 6%nat) body) as Hbody by by inversion Hsix.
  set (l := log_fields t text lang (label top) (score top) ranked) in *.
  assert (exists r0 body0, body ++ [l] = r0 :: body0 /\ length r0 = 6%nat)
    as (r0 & body0 & Hsplit & Hr0).
  { destruct body as [|r0 body0].
    - by exists l, [].
    - exists r0, (body0 ++ [l]). split; [done|]. by inversion Hbody. }
  cbn [app frame_of_tokens tail] in *.
  rewrite Hsplit, Hr0, Hheader. rewrite <- Hsplit.
  change (6 - 6)%nat with 0%nat. rewrite map_drop_0. cbn [fst].
  eexists _, _. split; [reflexivity|]. cbn [rows].
  split.
  { rewrite map_app. cbn [map]. apply last_snoc. }
  destruct (json_text_head ranked) as [jt Hjt].
  destruct (bracket_not_na jt) as (Hjna & Hjbool & Hjnum).
  split; [|split; [|split]].
  - cbn. rewrite column_snoc.
    rewrite (infer_kind_text _ (label top)) by done.
    rewrite convert_text; [done|by destruct Hlabel].
  - cbn. rewrite column_snoc. cbn [l log_fields lookup list_lookup default from_option id].
    assert (csv_number (float_repr (score top)) = Some (score top)) as Hnum.
    { unfold csv_number. by rewrite Hchars. }
    assert (infer_kind (column 4 body ++ [float_repr (score top)]) = KNumeric)
      as ->.
    { unfold infer_kind. rewrite forallb_app.
      fold (number_or_na (F:=F)). rewrite Hcol. cbn [forallb].
      unfold number_or_na. by rewrite Hna, Hnum. }
    unfold convert. by rewrite Hna, Hnum.
  - cbn. rewrite column_snoc. cbn [l log_fields lookup list_lookup default from_option id].
    rewrite Hjt.
    rewrite (infer_kind_text _ (91 :: jt)) by done.
    by rewrite convert_text.
  - by apply json_loads_dumps.
Qed.

End RoundTrip.

(** ** Scenarios *)

(** C8. The scenario of the specification: the pipeline answers joy 0.91,
    surprise 0.05, neutral 0.02, sadness 0.01, anger 0.01.  The ranking
    keeps that order, the top prediction is joy with the grinning face,
    the top three are joy, surprise and neutral, and the predict action
    shows them and adds to the log one line whose top label is joy and
    whose top score is written 0.91. *)
Theorem promotion_scenario (now : datetime) (w : world cents) :
  rank SCENARIO_SCORES = SCENARIO_SCORES
  /\ slice_to 3 (rank SCENARIO_SCORES) = [JOY; SURPRISE; NEUTRAL]
  /\ getitem (slice_to 3 (rank SCENARIO_SCORES)) 0 = Ok JOY
  /\ label_to_emoji (label JOY) = GRIN
  /\ predict_action scenario_pipeline now
       (mk_inputs LANG_EN SCENARIO_TEXT true false) (select_model LANG_EN) w
     = (Ok tt,
        mk_world
          (<[LOG_CSV := log_content w
                        ++ csv_writerow
                             [isoformat now; SCENARIO_TEXT; LANG_EN; lit "joy";
                              lit "0.91";
                              json_dumps (preds_obj SCENARIO_SCORES)]]> (fs w))
          (page w
           ++ [EvInference EN_MODEL SCENARIO_TEXT;
               EvPrediction GRIN (lit "joy") 91;
               EvRanked 1 (lit "joy") GRIN 91;
               EvRanked 2 (lit "surprise") ASTONISHED 5;
               EvRanked 3 (lit "neutral") NEUTRAL_FACE 2;
               EvTable SCENARIO_SCORES;
               EvChart SCENARIO_SCORES;
               EvSuccess MSG_SAVED])).
Proof.
  assert (rank SCENARIO_SCORES = SCENARIO_SCORES) as Hrank
    by (vm_compute; reflexivity).
  split; [exact Hrank|]. rewrite Hrank.
  split; [reflexivity|]. split; [reflexivity|].
  split; [vm_compute; reflexivity|].
  erewrite predict_action_run;
    [|vm_compute; reflexivity|reflexivity|exact Hrank].
  rewrite Hrank. reflexivity.
Qed.

(** ** The statements above at concrete inputs *)

Lemma log_ok_header : log_ok (F:=cents) (log_content NO_FILES).
Proof.
  eexists. split; [apply log_lines_header|]. reflexivity.
Defined.

Lemma log_round_trip_witness :
  exists df r,
    fst (read_csv LOG_CSV
           (snd (save_prediction NOON SCENARIO_TEXT LANG_EN (label JOY)
                   (score JOY) SCENARIO_SCORES NO_FILES)))
    = Ok df
    /\ last (rows df) = Some r
    /\ r !! 3%nat = Some (Text (label JOY))
    /\ r !! 4%nat = Some (Num (score JOY))
    /\ r !! 5%nat = Some (Text (json_dumps (preds_obj SCENARIO_SCORES)))
    /\ json_loads (json_dumps (preds_obj SCENARIO_SCORES))
       = Some (preds_obj SCENARIO_SCORES).
Proof.
  apply (log_round_trip NOON SCENARIO_TEXT LANG_EN JOY SCENARIO_SCORES NO_FILES).
  - exact log_ok_header.
  - vm_compute; reflexivity.
  - vm_compute; reflexivity.
  - vm_compute; reflexivity.
  - vm_compute. repeat split; reflexivity.
  - vm_compute. repeat split; reflexivity.
  - unfold SCENARIO_SCORES.
    repeat (apply List.Forall_cons;
            [vm_compute; split; [discriminate|reflexivity]|]).
    apply List.Forall_nil.
Defined.

(** C1, as the specification states it, fails for a prediction whose top
    label is a token the CSV reader takes for a missing value: the row is
    written with the label NA and read back with no label. *)
Lemma log_round_trip_counterexample :
  exists df r,
    fst (read_csv LOG_CSV
           (snd (save_prediction NOON SCENARIO_TEXT LANG_EN (label NA_LABEL)
                   (score NA_LABEL) [NA_LABEL] NO_FILES)))
    = Ok df
    /\ last (rows df) = Some r
    /\ r !! 3%nat = Some NaN
    /\ r !! 3%nat <> Some (Text (label NA_LABEL)).
Proof.
  eexists _, _. split; [vm_compute; reflexivity|].
  split; [reflexivity|]. split; [reflexivity|]. discriminate.
Qed.

Lemma blank_text_is_rejected_witness :
  predict_action scenario_pipeline NOON (mk_inputs LANG_EN BLANK_TEXT true false)
    (select_model LANG_EN) NO_FILES
  = (Ok tt, mk_world (fs NO_FILES) (page NO_FILES ++ [EvWarning MSG_EMPTY]))
  /\ fs (snd (script scenario_pipeline NOON
                (mk_inputs LANG_EN BLANK_TEXT true false) NO_FILES))
     = fs NO_FILES.
Proof.
  pose proof (blank_text_is_rejected scenario_pipeline NOON
                (mk_inputs LANG_EN BLANK_TEXT true false) NO_FILES) as Hw.
  destruct Hw as (H1 & _ & H3 & _).
  - repeat constructor.
  - reflexivity.
  - reflexivity.
  - split; [exact H1|exact H3].
Defined.

Lemma empty_scores_raise_IndexError_witness :
  predict_action empty_pipeline NOON (mk_inputs LANG_EN SCENARIO_TEXT true false)
    EN_MODEL NO_FILES
  = (Raise IndexError,
     mk_world (fs NO_FILES)
       (page NO_FILES ++ [EvInference EN_MODEL SCENARIO_TEXT])).
Proof.
  apply (proj1 (empty_scores_raise_IndexError empty_pipeline NOON
                  (mk_inputs LANG_EN SCENARIO_TEXT true false) EN_MODEL NO_FILES
                  [] [] eq_refl eq_refl)).
  reflexivity.
Defined.

Lemma prediction_adds_one_row_witness :
  fs (snd (script scenario_pipeline NOON
             (mk_inputs LANG_EN TRICKY_TEXT true false) NO_FILES)) !! LOG_CSV
  = Some (log_content NO_FILES
          ++ log_line NOON TRICKY_TEXT LANG_EN (label JOY) (score JOY)
               (rank SCENARIO_SCORES))
  /\ row_count (F:=cents)
       (log_content (snd (script scenario_pipeline NOON
                            (mk_inputs LANG_EN TRICKY_TEXT true false) NO_FILES)))
     = S (row_count (F:=cents) (log_content NO_FILES)).
Proof.
  pose proof (prediction_adds_one_row scenario_pipeline NOON
                (mk_inputs LANG_EN TRICKY_TEXT true false) NO_FILES
                SCENARIO_SCORES [] JOY [SURPRISE; NEUTRAL; SADNESS; ANGER]) as Hw.
  destruct Hw as (_ & H2 & _ & H4 & _); try reflexivity.
  - exists [map lit ["timestamp"; "text"; "language"; "top_label";
                     "top_score"; "all_scores"]%string].
    exact log_lines_header.
  - split; [exact H2|exact H4].
Defined.

(** C10.  The code breaks the claim at the text a, carriage return, b.
    With no log file yet, one press of the predict button succeeds and
    [save_prediction] writes the header and one line for the one
    prediction; the writer leaves the carriage return unquoted, the reader
    of the log panel ends a line there, and the same run shows two saved
    predictions: one prediction is counted as two rows, where the claim
    has one logical row for each prediction and a count that grows by
    one. *)
Theorem carriage_return_prediction_counts_two :
  row_count (F:=cents) (log_content NO_FILES) = 0%nat
  /\ fst (script scenario_pipeline NOON
            (mk_inputs LANG_EN CR_TEXT true false) NO_FILES) = Ok tt
  /\ fs (snd (script scenario_pipeline NOON
                (mk_inputs LANG_EN CR_TEXT true false) NO_FILES)) !! LOG_CSV
     = Some (LOG_HEADER
             ++ log_line NOON CR_TEXT LANG_EN (label JOY) (score JOY)
                  (rank SCENARIO_SCORES))
  /\ row_count (F:=cents)
       (log_content (snd (script scenario_pipeline NOON
                            (mk_inputs LANG_EN CR_TEXT true false) NO_FILES)))
     = 2%nat
  /\ In (EvTotal 2)
       (page (snd (script scenario_pipeline NOON
                     (mk_inputs LANG_EN CR_TEXT true false) NO_FILES))).
Proof.
  split; [vm_compute; reflexivity|]. split; [vm_compute; reflexivity|].
  split; [vm_compute; reflexivity|]. split; [vm_compute; reflexivity|].
  vm_compute. tauto.
Qed.

(** * Further properties of the script *)

(** ** The top prediction and the top three *)

Section Best.
Context `{PyFloat F}.

Lemma with_score_self (p : pred F) (l : list (pred F)) :
  with_score (fval (score p)) (p :: l)
  = p :: with_score (fval (score p)) l.
Proof.
  unfold with_score. cbn [List.filter].
  by rewrite (proj2 (Qeq_bool_iff _ _) (Qeq_refl _)).
Qed.

(** X1. The top prediction has a score no other prediction exceeds, and
    among the predictions with that score it is the one the pipeline
    returned first. *)
Theorem top_is_first_maximum (preds : list (pred F)) (top : pred F) :
  getitem (slice_to 3 (rank preds)) 0 = Ok top ->
  Forall (fun p => score_ge top p) preds
  /\ head (with_score (fval (score top)) preds) = Some top.
Proof.
  intros Htop.
  destruct (rank preds) as [|t more] eqn:Hrank; [done|].
  cbn in Htop. injection Htop as ->.
  split.
  - assert (StronglySorted score_ge (rank preds)) as Hs
      by apply sorted_rev, sort_stable_sorted.
    rewrite Hrank in Hs. inversion Hs as [|? ? _ Hall]; subst.
    rewrite <- (rank_perm preds), Hrank.
    constructor; [|done]. unfold score_ge. apply Qle_refl.
  - assert (with_score (fval (score top)) (rank preds)
            = with_score (fval (score top)) preds) as <-.
    { unfold rank, sorted.
      by rewrite with_score_rev, with_score_sort, with_score_rev,
                 rev_involutive. }
    by rewrite Hrank, with_score_self.
Qed.

Lemma strongly_sorted_split (l : list (pred F)) (n : nat) :
  StronglySorted score_ge l ->
  Forall (fun a => Forall (fun b => score_ge a b) (drop n l)) (take n l).
Proof.
  intros Hs. revert n. induction Hs as [|x l Hs IH Hall]; intros n.
  - by rewrite take_nil.
  - destruct n as [|n]; [constructor|]. cbn [take drop].
    constructor; [|apply IH].
    clear -Hall. revert n. induction Hall as [|y l Hy Hall IH]; intros n.
    + by rewrite drop_nil.
    + destruct n as [|n]; [by constructor|]. apply IH.
Qed.

(** X2. The top three are as many predictions as there are, up to three,
    and no prediction left out of them has a score above one of theirs. *)
Theorem top3_are_the_best (preds : list (pred F)) :
  length (slice_to 3 (rank preds)) = (3 `min` length preds)%nat
  /\ slice_to 3 (rank preds) ++ drop 3 (rank preds) ≡ₚ preds
  /\ Forall (fun a => Forall (fun b => score_ge a b) (drop 3 (rank preds)))
       (slice_to 3 (rank preds)).
Proof.
  unfold slice_to. split; [|split].
  - rewrite length_take. by rewrite (Permutation_length (rank_perm preds)).
  - rewrite take_drop. apply rank_perm.
  - apply strongly_sorted_split, sorted_rev, sort_stable_sorted.
Qed.

Lemma insert_stable_least (x : pred F) (l : list (pred F)) :
  Forall (score_le x) l -> insert_stable score float_lt x l = x :: l.
Proof.
  intros Hall. destruct Hall as [|y l Hy _]; [done|]. cbn.
  assert (float_lt (score y) (score x) = false) as ->; [|done].
  unfold float_lt. apply negb_false_iff. by apply Qle_bool_iff.
Qed.

Lemma sort_stable_sorted_id (l : list (pred F)) :
  StronglySorted score_le l -> sort_stable score float_lt l = l.
Proof.
  induction 1 as [|x l Hs IH Hall]; [done|]. cbn.
  rewrite IH. by apply insert_stable_least.
Qed.

Lemma sorted_rev_ge (l : list (pred F)) :
  StronglySorted score_ge l -> StronglySorted score_le (rev l).
Proof.
  induction 1 as [|y l Hs IH Hall]; simpl; [constructor|].
  apply sorted_snoc; [done|]. apply Forall_rev. exact Hall.
Qed.

(** X3. Scores the pipeline returns in non-increasing order are ranked
    as they came: the ranking changes nothing, ties included. *)
Theorem rank_keeps_sorted_scores (preds : list (pred F)) :
  StronglySorted score_ge preds -> rank preds = preds.
Proof.
  intros Hs. unfold rank, sorted.
  rewrite sort_stable_sorted_id by by apply sorted_rev_ge.
  apply rev_involutive.
Qed.

End Best.

Lemma top_is_first_maximum_witness :
  Forall (fun p => score_ge JOY p) SCENARIO_SCORES
  /\ head (with_score (fval (score JOY)) SCENARIO_SCORES) = Some JOY.
Proof.
  apply (top_is_first_maximum SCENARIO_SCORES JOY). reflexivity.
Defined.

Lemma rank_keeps_sorted_scores_witness : rank SCENARIO_SCORES = SCENARIO_SCORES.
Proof.
  apply (rank_keeps_sorted_scores SCENARIO_SCORES).
  repeat (apply SSorted_cons; [|repeat (apply List.Forall_cons; [by vm_compute|]);
                                  apply List.Forall_nil]).
  apply SSorted_nil.
Defined.

(** ** The guard of the predict button *)

Lemma lstrip_nil (s : str) : lstrip s = [] -> blank s.
Proof.
  unfold blank. induction s as [|c s IH]; [by constructor|]. cbn [lstrip].
  destruct (isspace c) eqn:Hc; [|done].
  intros Hs. apply List.Forall_cons; [exact Hc|by apply IH].
Qed.

Lemma lstrip_head (s : str) :
  lstrip s = [] \/ exists c t, lstrip s = c :: t /\ isspace c = false.
Proof.
  induction s as [|c s IH]; [by left|]. cbn [lstrip].
  destruct (isspace c) eqn:Hc; [done|]. right. by exists c, s.
Qed.

Lemma blank_rev (s : str) : blank (rev s) -> blank s.
Proof. unfold blank. intros Hs. apply Forall_rev in Hs. by rewrite rev_involutive in Hs. Qed.

Lemma py_not_strip_blank (s : str) : py_not (strip s) = true <-> blank s.
Proof.
  split.
  - intros Hs.
    assert (strip s = []) as Hstrip
      by (destruct (strip s); [done|cbn in Hs; discriminate]).
    unfold strip, rstrip in Hstrip.
    assert (lstrip (rev (lstrip s)) = []) as Hl.
    { apply (f_equal (@rev N)) in Hstrip. by rewrite rev_involutive in Hstrip. }
    apply lstrip_nil, blank_rev in Hl.
    destruct (lstrip_head s) as [Hnil|(c & t & Hct & Hc)].
    + by apply lstrip_nil.
    + rewrite Hct in Hl. inversion Hl; subst. congruence.
  - intros Hs. by rewrite blank_strip.
Qed.

(** X4. The predict button refuses a text exactly when the text is made
    of whitespace only: [not text.strip()] holds of the blank texts and of
    no other. *)
Theorem refused_iff_blank (s : str) : py_not (strip s) = true <-> blank s.
Proof. apply py_not_strip_blank. Qed.

(** ** The files the log actions touch *)

Section Outcome.
Context `{PyFloat F}.




End Outcome.


(** ** The log panel *)

Section Panel.
Context `{PyFloat F}.
Variable pipeline : str -> str -> list (list (pred F)).

Lemma read_csv_run (w : world F) (data : str) :
  fs w !! LOG_CSV = Some data ->
  read_csv LOG_CSV w
  = match read_csv_text (F:=F) data with
    | Some df => (Ok df, w)
    | None =>
        (Raise (match tokenize_all data with
                | TokenError => ParserError
                | Tokens _ => EmptyDataError
                end), w)
    end.
Proof.
  intros Hw. unfold read_csv, read_csv_text. rewrite Hw.
  destruct (tokenize_all data) as [ls|]; [|done].
  by destruct (frame_of_tokens ls).
Qed.

(** X8. The log panel never raises and changes no file.  Without a log
    file it says that nothing is saved yet; with a log file that the
    reader refuses (an empty file is one) it shows the message of the
    failure and neither count nor download; with a log file that reads as
    a frame it shows the number of rows of the frame and offers the bytes
    of the file for download. *)
Theorem log_panel_reports (w : world F) :
  (fs w !! LOG_CSV = None ->
     show_log w = (Ok tt, mk_world (fs w) (page w ++ [EvWrite MSG_NONE_YET])))
  /\ (forall data, fs w !! LOG_CSV = Some data ->
        read_csv_text (F:=F) data = None ->
        show_log w
        = (Ok tt, mk_world (fs w) (page w ++ [EvWrite MSG_UNREADABLE])))
  /\ (forall data df, fs w !! LOG_CSV = Some data ->
        read_csv_text (F:=F) data = Some df ->
        show_log w
        = (Ok tt, mk_world (fs w)
                    (page w ++ [EvTotal (length (rows df)); EvDownload data])))
  /\ read_csv_text (F:=F) [] = None.
Proof.
  split; [|split; [|split]].
  - intros Hw. unfold show_log. rewrite bind_run. cbn [path_exists].
    rewrite bool_decide_eq_false_2; [done|]. rewrite Hw. by intros [? ?].
  - intros data Hw Hread. unfold show_log. rewrite bind_run. cbn [path_exists].
    rewrite bool_decide_eq_true_2 by eauto.
    unfold try_except. rewrite bind_run, (read_csv_run w data Hw), Hread.
    reflexivity.
  - intros data df Hw Hread. unfold show_log. rewrite bind_run.
    cbn [path_exists]. rewrite bool_decide_eq_true_2 by eauto.
    unfold try_except. rewrite bind_run, (read_csv_run w data Hw), Hread.
    rewrite bind_run. cbn [emit]. rewrite bind_run.
    unfold read_file. cbn [fs page]. rewrite Hw. cbn [emit fs page].
    by rewrite <- app_assoc.
  - reflexivity.
Qed.

(** ** Sessions *)

Lemma script_predict_run (now : datetime) (inp : inputs) (w : world F)
    (ls : list (list str)) (preds : list (pred F))
    (rest : list (list (pred F))) (top : pred F) (more : list (pred F)) :
  predict_clicked inp = true ->
  clear_clicked inp = false ->
  py_not (strip (text inp)) = false ->
  pipeline (select_model (lang inp)) (text inp) = preds :: rest ->
  rank preds = top :: more ->
  log_lines (log_content w) ls ->
  no_cr (text inp) -> no_cr (lang inp) -> no_cr (label top) ->
  no_cr (float_repr (score top)) ->
  fs (snd (script pipeline now inp w))
  = <[LOG_CSV := log_content w
                 ++ log_line now (text inp) (lang inp) (label top)
                      (score top) (rank preds)]> (fs w)
  /\ log_lines
       (log_content w
        ++ log_line now (text inp) (lang inp) (label top) (score top)
             (rank preds))
       (ls ++ [log_fields now (text inp) (lang inp) (label top) (score top)
                 (rank preds)]).
Proof.
  intros Hp Hc Htext Hpipe Hrank Hls H1 H2 H3 H4.
  pose proof (log_lines_save now _ _ _ _ _ _ (rank preds) Hls H1 H2 H3 H4)
    as Hls'.
  split; [|exact Hls'].
  unfold script. rewrite Hp, Hc. rewrite bind_run. cbn [emit].
  rewrite bind_run.
  erewrite predict_action_run by done. cbn [fs page].
  rewrite bind_run.
  erewrite show_log_run; [reflexivity| |exact Hls'].
  cbn [fs]. apply lookup_insert_eq.
Qed.

(** X9. Over a session of clean predictions, starting from a well-formed
    log or from no log at all, the log only grows at its end, stays
    well-formed, and reads as one more row for each prediction made: the
    count the page shows is the number of predictions since the log was
    created. *)
Theorem session_counts_predictions (steps : list (datetime * inputs))
    (w : world F) :
  log_wf (log_content w) ->
  Forall (clean_prediction pipeline) steps ->
  log_wf (log_content (session pipeline steps w))
  /\ (exists added,
        log_content (session pipeline steps w) = log_content w ++ added)
  /\ row_count (F:=F) (log_content (session pipeline steps w))
     = (row_count (F:=F) (log_content w) + length steps)%nat.
Proof.
  intros Hwf Hsteps. revert w Hwf.
  induction Hsteps as [|[now inp] steps Hstep Hsteps IH]; intros w Hwf.
  - cbn [session length]. split; [done|]. split; [|lia].
    exists []. by rewrite app_nil_r.
  - destruct Hstep as (Hp & Hc & Htext & H1 & H2 & preds & rest & top & more
                       & Hpipe & Hrank & H3 & H4).
    cbn [fst snd] in *. destruct Hwf as (ls & Hls).
    destruct (script_predict_run now inp w ls preds rest top more
                Hp Hc Htext Hpipe Hrank Hls H1 H2 H3 H4) as (Hfs & Hls').
    cbn [session fst snd length].
    set (w1 := snd (script pipeline now inp w)) in *.
    assert (log_content w1
            = log_content w
              ++ log_line now (text inp) (lang inp) (label top) (score top)
                   (rank preds)) as Hcontent.
    { unfold log_content at 1. by rewrite Hfs, lookup_insert_eq. }
    destruct (IH w1) as (Hwf' & (added & Hadd) & Hcount).
    { rewrite Hcontent. by eexists. }
    split; [done|]. split.
    + eexists. by rewrite Hadd, Hcontent, <- app_assoc.
    + rewrite Hcount, Hcontent.
      rewrite (row_count_lines _ _ Hls'), (row_count_lines _ _ Hls).
      rewrite length_app. cbn [length].
      destruct Hls as (_ & Hne & _). destruct ls; [done|]. cbn [length]. lia.
Qed.

(** X10. Clearing resets the log: whatever the log held, the first row
    saved after a clear is written to a new file, after a header line of
    its own; when its fields are written without a carriage return, that
    file reads as exactly one row. *)
Theorem save_after_clear_starts_anew (t : datetime) (text lang : str)
    (top : pred F) (ranked : list (pred F)) (w : world F) :
  no_cr text -> no_cr lang -> no_cr (label top) ->
  no_cr (float_repr (score top)) ->
  fs (snd (save_prediction t text lang (label top) (score top) ranked
             (snd (clear_action w)))) !! LOG_CSV
  = Some (LOG_HEADER ++ log_line t text lang (label top) (score top) ranked)
  /\ row_count (F:=F)
       (LOG_HEADER ++ log_line t text lang (label top) (score top) ranked)
     = 1%nat.
Proof.
  intros H1 H2 H3 H4. split.
  - rewrite save_prediction_run. cbn [snd fs]. rewrite lookup_insert_eq.
    assert (fs (snd (clear_action w)) !! LOG_CSV = None) as ->; [|done].
    unfold clear_action. rewrite bind_run. cbn [path_exists].
    destruct (fs w !! LOG_CSV) as [old|] eqn:Hw.
    + rewrite bool_decide_eq_true_2 by eauto.
      rewrite bind_run. unfold os_remove. rewrite Hw. cbn.
      apply lookup_delete_eq.
    + rewrite bool_decide_eq_false_2; [done|]. by intros [? ?].
  - erewrite row_count_lines;
      [|apply (log_lines_save t _ _ _ _ _ _ ranked log_lines_header); done].
    reflexivity.
Qed.

End Panel.

(** ** The writer, the reader and the encoder on their own *)



Section Encoder.
Context `{PyFloat F}.

(** X12. Every string, whatever quotes, backslashes, control characters
    or characters outside ASCII it holds, is decoded by [json.loads] from
    what [json.dumps] wrote for it. *)
Theorem json_string_round_trip (s : str) :
  json_loads (F:=F) (json_dumps (JStr s)) = Some (JStr s).
Proof.
  unfold json_loads. cbn [json_dumps]. unfold json_string.
  change ([34] ++ flat_map json_escape_char s ++ [34])
    with (34 :: flat_map json_escape_char s ++ [34]).
  cbn [skip_ws is_json_ws N.eqb Pos.eqb orb length].
  change (scan_once (S (length (flat_map json_escape_char s ++ [34])))
            (34 :: flat_map json_escape_char s ++ [34]))
    with (match scanstring (flat_map json_escape_char s ++ [34]) [] with
          | Some (x, r) => Some (JStr (F:=F) x, r)
          | None => None
          end).
  by rewrite scanstring_json_string.
Qed.

End Encoder.

(** ** The timestamp *)

Lemma zpad_length (w : nat) (n : N) : length (zpad w n) = w.
Proof.
  revert n. induction w as [|w IH]; intros n; [done|].
  cbn [zpad]. rewrite length_app, IH. cbn. lia.
Qed.

Lemma plain_not_special (s : str) :
  Forall plain_char s -> existsb csv_special s = false.
Proof.
  induction 1 as [|c s (H1 & H2 & H3 & _) Hs IH]; [done|].
  cbn [existsb]. rewrite IH. unfold csv_special.
  by rewrite (proj2 (N.eqb_neq c COMMA)), (proj2 (N.eqb_neq c QUOTE)),
             (proj2 (N.eqb_neq c LF)).
Qed.

(** X13. The timestamp of a row is 19 characters long, or 26 with its
    microseconds, and is written to the log as it is, without quotes. *)
Theorem timestamp_written_verbatim (d : datetime) :
  length (isoformat d) = (if N.eqb (microsecond d) 0 then 19 else 26)%nat
  /\ csv_field (isoformat d) = isoformat d.
Proof.
  split.
  - unfold isoformat. rewrite !length_app, !zpad_length.
    destruct (N.eqb (microsecond d) 0); [reflexivity|].
    rewrite length_app, zpad_length. reflexivity.
  - unfold csv_field. by rewrite plain_not_special by apply isoformat_plain.
Qed.

(** ** The emoji table and the lines of the top three *)

(** X14. Every entry of the emoji mapping can be reached: a key of the
    mapping, as it is written or in upper case, gets the emoji of its
    entry, which is never the default glyph. *)
Theorem emoji_entries_are_reachable (k v : str) :
  EMOJI_MAP !! k = Some v ->
  label_to_emoji k = v /\ label_to_emoji (upper k) = v /\ v <> BLUE_SQUARE.
Proof.
  intros Hk. unfold EMOJI_MAP in Hk.
  apply elem_of_list_to_map_2, list_elem_of_In in Hk.
  cbn [In] in Hk.
  repeat (destruct Hk as [[= <- <-]|Hk]; [by vm_compute|]).
  done.
Qed.

Lemma emoji_entries_are_reachable_witness :
  label_to_emoji (lit "anger/annoyance") = RAGE
  /\ label_to_emoji (upper (lit "anger/annoyance")) = RAGE
  /\ RAGE <> BLUE_SQUARE.
Proof.
  apply emoji_entries_are_reachable. by vm_compute.
Defined.

Lemma enumerate_fst {A} (k : nat) (l : list A) :
  map fst (enumerate k l) = seq k (length l).
Proof.
  revert k. induction l as [|x l IH]; intros k; [done|].
  cbn. by rewrite IH.
Qed.

Lemma enumerate_snd {A} (k : nat) (l : list A) :
  map snd (enumerate k l) = l.
Proof.
  revert k. induction l as [|x l IH]; intros k; [done|].
  cbn. by rewrite IH.
Qed.

(** X15. The lines of the top three are numbered 1, 2, 3, as many as
    there are predictions up to three, and list the first predictions of
    the ranking in its order. *)
Theorem top3_lines_are_numbered `{PyFloat F} (preds : list (pred F)) :
  map fst (enumerate 1 (slice_to 3 (rank preds)))
  = seq 1 (3 `min` length preds)
  /\ map snd (enumerate 1 (slice_to 3 (rank preds))) = take 3 (rank preds).
Proof.
  rewrite enumerate_fst, enumerate_snd. unfold slice_to.
  by rewrite length_take, (Permutation_length (rank_perm preds)).
Qed.

(** ** The statements of this part at concrete inputs *)

Lemma session_counts_predictions_witness :
  row_count (F:=cents)
    (log_content (session scenario_pipeline TWO_PREDICTIONS NO_FILES))
  = (row_count (F:=cents) (log_content NO_FILES) + 2)%nat.
Proof.
  apply (session_counts_predictions scenario_pipeline TWO_PREDICTIONS NO_FILES).
  - eexists. apply log_lines_header.
  - repeat (apply List.Forall_cons;
            [repeat (split; [by vm_compute|]);
             exists SCENARIO_SCORES, [], JOY, [SURPRISE; NEUTRAL; SADNESS; ANGER];
             repeat split; by vm_compute|]).
    apply List.Forall_nil.
Defined.

Lemma save_after_clear_starts_anew_witness :
  fs (snd (save_prediction NOON TRICKY_TEXT LANG_EN (label JOY) (score JOY)
             SCENARIO_SCORES
             (snd (clear_action
                     (mk_world (F:=cents) {[LOG_CSV := CR_TEXT]} [])))))
    !! LOG_CSV
  = Some (LOG_HEADER
          ++ log_line NOON TRICKY_TEXT LANG_EN (label JOY) (score JOY)
               SCENARIO_SCORES)
  /\ row_count (F:=cents)
       (LOG_HEADER
        ++ log_line NOON TRICKY_TEXT LANG_EN (label JOY) (score JOY)
             SCENARIO_SCORES)
     = 1%nat.
Proof.
  apply (save_after_clear_starts_anew NOON TRICKY_TEXT LANG_EN JOY
           SCENARIO_SCORES); by vm_compute.
Defined.
